(** * TalentFlow: the candidate-stage Kanban engine

    A shallow embedding of the stage-transition code of the TalentFlow
    recruiting application:

    - [src/components/candidates/CandidatesKanban.jsx]: the stage registry
      [STAGES], the grouping view [candidatesByStage], the drop handler
      [handleDragEnd] and the optimistic mutation [updateCandidateStage];
    - [src/components/candidates/CandidatesList.jsx]: [handleStageDrop] and
      its own [updateCandidateStage] mutation;
    - [src/mocks/handlers.js]: the two [PATCH /candidates/:id] handlers.

    JavaScript objects are finite maps from property names to values, the
    Dexie tables are finite maps from primary keys to objects, and the
    asynchronous handlers are programs in a state-and-exception monad over
    the store, the query cache and the log of store calls. *)

From stdpp Require Import gmap strings list fin_maps pretty sorting.
From Stdlib Require Import ZArith.

Local Open Scope string_scope.
Local Open Scope list_scope.

(** ** JavaScript values and objects *)

Module Js.

(** JSON-like values: strings, numbers, arrays ([skills]) and nested
    objects ([metadata]).  An absent property reads as [undefined], that is
    [None] on lookup. *)
#[warnings="-register-all"]
Inductive jsval :=
| VStr (s : string)
| VNum (n : Z)
| VArr (l : list jsval)
| VObj (o : list (string * jsval)).

Definition jsval_eq : ∀ x y : jsval, {x = y} + {x ≠ y}.
Proof.
  fix IH 1. intros [s|n|l|o] [s'|n'|l'|o']; try (right; discriminate).
  - destruct (decide (s = s')); [left; congruence | right; congruence].
  - destruct (decide (n = n')); [left; congruence | right; congruence].
  - destruct (List.list_eq_dec IH l l'); [left; congruence | right; congruence].
  - assert (Hp : ∀ p q : string * jsval, {p = q} + {p ≠ q}).
    { intros [a b] [c d]. destruct (decide (a = c)); [|right; congruence].
      destruct (IH b d); [left; congruence | right; congruence]. }
    destruct (List.list_eq_dec Hp o o'); [left; congruence | right; congruence].
Defined.

#[global] Instance jsval_eq_dec : EqDecision jsval := jsval_eq.

(** [x === s] for a string [s]: strict equality never converts. *)
Definition is_str (x : option jsval) (s : string) : Prop := x = Some (VStr s).

#[global] Instance is_str_dec x s : Decision (is_str x s).
Proof. unfold is_str. apply _. Defined.

(** JavaScript truthiness: [undefined], the empty string and [0] are
    falsy, arrays and objects are always truthy. *)
Definition truthy (x : option jsval) : bool :=
  match x with
  | None => false
  | Some (VStr s) => negb (String.eqb s "")
  | Some (VNum n) => negb (Z.eqb n 0)
  | Some (VArr _) | Some (VObj _) => true
  end.

(** [a !== b].  Strings and numbers compare by value; an array or an
    object is only identical to itself, and the two sides compared in
    this development always come from different allocations (a parsed
    request body and a record read from the store). *)
Definition strict_neq (a b : option jsval) : bool :=
  match a, b with
  | None, None => false
  | Some (VStr x), Some (VStr y) => negb (String.eqb x y)
  | Some (VNum x), Some (VNum y) => negb (Z.eqb x y)
  | _, _ => true
  end.

(** String conversion inside a template literal; an array joins the
    conversions of its elements with commas. *)
Fixpoint str_of (v : jsval) : string :=
  match v with
  | VStr s => s
  | VNum n => pretty n
  | VArr l => String.concat "," (map str_of l)
  | VObj _ => "[object Object]"
  end.

Definition to_string (x : option jsval) : string :=
  match x with
  | None => "undefined"
  | Some v => str_of v
  end.

End Js.
Export Js.

(** A JavaScript object; [{...a, ...b}] is [b ∪ a] (the later spread wins). *)
Abbreviation obj := (gmap string jsval).

Definition spread (a b : obj) : obj := b ∪ a.

(** ** The stage registry *)

Record StageDef := { value : string; label : string; color : string }.

(** [STAGES] of CandidatesKanban.jsx. *)
Definition STAGES : list StageDef :=
  [ {| value := "applied";  label := "Applied";   color := "bg-blue-100 text-blue-800" |};
    {| value := "screen";   label := "Screening"; color := "bg-purple-100 text-purple-800" |};
    {| value := "tech";     label := "Technical"; color := "bg-amber-100 text-amber-800" |};
    {| value := "offer";    label := "Offer";     color := "bg-green-100 text-green-800" |};
    {| value := "hired";    label := "Hired";     color := "bg-emerald-100 text-emerald-800" |};
    {| value := "rejected"; label := "Rejected";  color := "bg-red-100 text-red-800" |} ].

(** The other enumerations of the stages, in source order: the keys of
    [STAGE_TITLES] (KanbanColumn), the [id]s of [STAGES] in CandidateCard.jsx
    and CandidateDetail.jsx, the [stages] array of [generateMockCandidates],
    [STAGES] of the two seed files, the keys of [STAGE_LABELS] and the stage
    items of the filter select of CandidatesList.jsx. *)
Definition STAGE_TITLES : list (string * string) :=
  [ ("applied", "Applied"); ("screen", "Screening"); ("tech", "Technical");
    ("offer", "Offer"); ("hired", "Hired"); ("rejected", "Rejected") ].

Definition CandidateCard_STAGES : list (string * string * string) :=
  [ ("applied", "Applied", "bg-blue-500"); ("screen", "Screening", "bg-purple-500");
    ("tech", "Technical", "bg-amber-500"); ("offer", "Offer", "bg-green-500");
    ("hired", "Hired", "bg-emerald-500"); ("rejected", "Rejected", "bg-red-500") ].

Definition CandidateDetail_STAGES : list (string * string * string) :=
  [ ("applied", "Applied", "bg-blue-100 text-blue-800");
    ("screen", "Screening", "bg-purple-100 text-purple-800");
    ("tech", "Technical", "bg-amber-100 text-amber-800");
    ("offer", "Offer", "bg-green-100 text-green-800");
    ("hired", "Hired", "bg-emerald-100 text-emerald-800");
    ("rejected", "Rejected", "bg-red-100 text-red-800") ].

Definition mock_stages : list string :=
  [ "applied"; "screen"; "tech"; "offer"; "hired"; "rejected" ].

Definition seed_STAGES : list string :=
  [ "applied"; "screen"; "tech"; "offer"; "hired"; "rejected" ].

Definition STAGE_LABELS : list (string * string) :=
  [ ("applied", "Applied"); ("screen", "Screening"); ("tech", "Technical");
    ("offer", "Offer"); ("hired", "Hired"); ("rejected", "Rejected") ].

Definition filter_select_items : list (string * string) :=
  [ ("applied", "Applied"); ("screen", "Screening"); ("tech", "Technical");
    ("offer", "Offer"); ("hired", "Hired"); ("rejected", "Rejected") ].

(** [allStages()]: the stage values in column order. *)
Definition allStages : list string := value <$> STAGES.

(** [STAGES.some(s => s.value === x)] *)
Definition is_stage (x : string) : Prop := x ∈ allStages.

#[global] Instance is_stage_dec x : Decision (is_stage x).
Proof. unfold is_stage. apply _. Defined.

(** ** The grouping view *)

(** [c.stage === s] *)
Definition at_stage (s : string) (c : obj) : Prop := is_str (c !! "stage") s.

#[global] Instance at_stage_dec s c : Decision (at_stage s c).
Proof. unfold at_stage. apply _. Defined.

(** [candidatesByStage] of CandidatesKanban.jsx: a [reduce] over [STAGES]
    that stores under every stage value the candidates filtered by that
    stage, then a [forEach] that fills missing keys with [[]]. *)
Definition candidatesByStage (paginatedCandidates : list obj) : gmap string (list obj) :=
  let grouped :=
    foldl (λ acc stage,
             <[value stage := filter (at_stage (value stage)) paginatedCandidates]> acc)
          ∅ STAGES in
  foldl (λ grouped stage,
           match grouped !! value stage with
           | Some _ => grouped
           | None => <[value stage := []]> grouped
           end)
        grouped STAGES.

(** [candidatesByStage[s] || []], as the column renderer reads it. *)
Definition column (g : gmap string (list obj)) (s : string) : list obj :=
  default [] (g !! s).

(** The candidates of all columns, left to right. *)
Definition all_columns (g : gmap string (list obj)) : list obj :=
  concat (column g <$> allStages).

(** [c.stage] is one of the stages [ss]. *)
Definition stage_in (ss : list string) (c : obj) : Prop := ∃ s, s ∈ ss ∧ at_stage s c.

#[global] Instance stage_in_dec ss c : Decision (stage_in ss c).
Proof.
  unfold stage_in, at_stage, is_str.
  destruct (c !! "stage") as [[s| | |]|];
    try (right; intros (s' & _ & Hat); discriminate Hat).
  destruct (decide (s ∈ ss)) as [Hin|Hout].
  - left. by exists s.
  - right. intros (s' & Hs' & Hat). by simplify_eq.
Defined.

(** [c.stage] is one of the registry stages. *)
Definition staged (c : obj) : Prop := stage_in allStages c.

#[global] Instance staged_dec c : Decision (staged c).
Proof. unfold staged. apply _. Defined.

(** ** The store, the query cache and the environment *)

(** A JavaScript [Error]: its name and its message. *)
Record exn := Error { err_name : string; err_message : string }.

(** The Dexie operations the stage-change paths use. *)
Inductive StoreOp := CandidatesGet | CandidatesUpdate | TimelineAdd.

#[global] Instance StoreOp_eq_dec : EqDecision StoreOp.
Proof. solve_decision. Defined.

(** A store call as issued, with its arguments. *)
Inductive StoreCall :=
| candidates_get (id : string)
| candidates_update (id : string) (changes : obj)
| timeline_add (ev : obj).

(** What a request cannot control: the random draw of [simulateNetwork],
    failures of the backing store, the clock and the UUID generator. *)
Record Env := {
  random_fault : bool;             (* [Math.random() < 0.075] *)
  fault : StoreOp → option exn;    (* the operation rejects with this error *)
  idb_message : string → string;   (* the browser's text for a key error *)
  now_iso : nat → string;          (* [new Date().toISOString()], n-th reading *)
  now_ms : Z;                      (* [Date.now()] *)
  uuid : string;                   (* [crypto.randomUUID()] *)
}.

(** The state a stage change can touch: the two Dexie tables keyed by their
    primary key [id] (db.js: [candidates: 'id, email, stage, jobId'],
    [timeline: 'id, candidateId, timestamp']), the query-cache entry
    [['candidates-kanban', search]] ([None] while it holds no data), the
    drag session's [activeId], and three logs: store calls issued, toasts
    shown and query keys invalidated. *)
Record World := {
  candidates : gmap string obj;
  timeline : gmap string obj;
  cache : option (list obj);
  activeId : option string;
  calls : list StoreCall;
  toasts : list (string * string);
  invalidated : list string;
}.

Definition set_candidates (t : gmap string obj) (w : World) : World :=
  {| candidates := t; timeline := timeline w; cache := cache w; activeId := activeId w;
     calls := calls w; toasts := toasts w; invalidated := invalidated w |}.

Definition set_timeline (t : gmap string obj) (w : World) : World :=
  {| candidates := candidates w; timeline := t; cache := cache w; activeId := activeId w;
     calls := calls w; toasts := toasts w; invalidated := invalidated w |}.

Definition set_cache (c : option (list obj)) (w : World) : World :=
  {| candidates := candidates w; timeline := timeline w; cache := c; activeId := activeId w;
     calls := calls w; toasts := toasts w; invalidated := invalidated w |}.

Definition setActiveId (a : option string) (w : World) : World :=
  {| candidates := candidates w; timeline := timeline w; cache := cache w; activeId := a;
     calls := calls w; toasts := toasts w; invalidated := invalidated w |}.

Definition log_call (c : StoreCall) (w : World) : World :=
  {| candidates := candidates w; timeline := timeline w; cache := cache w;
     activeId := activeId w; calls := calls w ++ [c]; toasts := toasts w;
     invalidated := invalidated w |}.

Definition toast (title description : string) (w : World) : World :=
  {| candidates := candidates w; timeline := timeline w; cache := cache w;
     activeId := activeId w; calls := calls w;
     toasts := toasts w ++ [(title, description)]; invalidated := invalidated w |}.

Definition invalidateQueries (key : string) (w : World) : World :=
  {| candidates := candidates w; timeline := timeline w; cache := cache w;
     activeId := activeId w; calls := calls w; toasts := toasts w;
     invalidated := invalidated w ++ [key] |}.

(** ** Asynchronous code: state and exceptions *)

(** An [async] body run to completion: it ends with a value or a thrown
    error, and in both cases leaves a world behind. *)
Definition M (A : Type) : Type := World → (exn + A) * World.

#[global] Instance M_ret : MRet M := λ A x w, (inr x, w).

#[global] Instance M_bind : MBind M := λ A B f m w,
  match m w with
  | (inl e, w') => (inl e, w')
  | (inr x, w') => f x w'
  end.

Definition throw {A} (e : exn) : M A := λ w, (inl e, w).

Definition try_catch {A} (body : M A) (handler : exn → M A) : M A := λ w,
  match body w with
  | (inl e, w') => handler e w'
  | (inr x, w') => (inr x, w')
  end.

Definition gets {A} (f : World → A) : M A := λ w, (inr (f w), w).

Definition modify (f : World → World) : M unit := λ w, (inr (), f w).

(** The part of an awaited store operation that every operation shares: the
    call is logged, then rejects if the backing store fails on it. *)
Definition store_op (env : Env) (op : StoreOp) (c : StoreCall) : M unit :=
  modify (log_call c) ;;
  match fault env op with
  | Some e => throw e
  | None => mret ()
  end.

(** ** Dexie tables

    Dexie is a dependency of the application, not part of it; the three
    operations are modelled from its documented behaviour. *)

(** [db.candidates.get(id)]: the record, or [undefined]. *)
Definition db_candidates_get (env : Env) (id : string) : M (option obj) :=
  store_op env CandidatesGet (candidates_get id) ;;
  gets (λ w, candidates w !! id).

(** [Table.update(key, changes)] applies [changes] to the record stored
    under [key] and leaves every other property of it alone; when no record
    has that key it changes nothing and still resolves (with count 0, which
    no caller reads).  This is the update for changes that leave the primary
    key alone ([keeps_key] below).  Changes that carry another [id] make
    Dexie delete the record and add it under the new key; that move is not
    modelled, and every statement that takes the changes from a request
    body assumes [keeps_key]. *)
Definition apply_update (id : string) (changes : obj) (w : World) : World :=
  match candidates w !! id with
  | Some o => set_candidates (<[id := spread o changes]> (candidates w)) w
  | None => w
  end.

Definition db_candidates_update (env : Env) (id : string) (changes : obj) : M unit :=
  store_op env CandidatesUpdate (candidates_update id changes) ;;
  modify (apply_update id changes).

(** A request body that leaves the primary key of the record stored under
    [id] as it is: it carries no [id], or the [id] of the route. *)
Definition keeps_key (id : string) (changes : obj) : Prop :=
  changes !! "id" = None ∨ changes !! "id" = Some (VStr id).

#[global] Instance keeps_key_dec id changes : Decision (keeps_key id changes).
Proof. unfold keeps_key. apply _. Defined.

(** [Table.add(item)] on a table whose primary key [id] is inbound and not
    auto-incremented: the key is read from the item; an item without a key
    is rejected with [DataError], a key already present with
    [ConstraintError].  (Every [id] the modelled callers write is a string;
    the table is keyed by strings.) *)
Definition db_timeline_add (env : Env) (ev : obj) : M unit :=
  store_op env TimelineAdd (timeline_add ev) ;;
  match ev !! "id" with
  | Some (VStr k) =>
      tl ← gets timeline;
      match tl !! k with
      | None => modify (set_timeline (<[k := ev]> tl))
      | Some _ => throw (Error "ConstraintError" (idb_message env "ConstraintError"))
      end
  | _ => throw (Error "DataError" (idb_message env "DataError"))
  end.

(** ** The mocked HTTP API (handlers.js) *)

Record response := Json { body : option obj; status : nat }.

(** [simulateNetwork(isWrite)]: after the delay, a write fails when the
    random draw is below the error rate. *)
Definition simulateNetwork (env : Env) (isWrite : bool) : M unit :=
  if isWrite && random_fault env
  then throw (Error "Error" "Simulated network error")
  else mret ().

(** [handleError]: status 500 with [error.message || 'Internal Server Error']. *)
Definition handleError (error : exn) : M response :=
  let msg := if String.eqb (err_message error) "" then "Internal Server Error"
             else err_message error in
  mret (Json (Some {[ "error" := VStr msg ]}) 500).

(** [updates.stage && updates.stage !== candidate.stage] *)
Definition stage_changes (updates candidate : obj) : bool :=
  truthy (updates !! "stage") && strict_neq (updates !! "stage") (candidate !! "stage").

(** The event the first [PATCH /candidates/:id] handler adds. *)
Definition patch_event (env : Env) (id : string) (candidate updates : obj) : obj :=
  list_to_map
    [ ("id", VStr (uuid env));
      ("candidateId", VStr id);
      ("type", VStr "stage_change");
      ("title", VStr ("Moved to " +:+ to_string (updates !! "stage") +:+ " stage"));
      ("description",
        VStr ("Candidate moved from " +:+ to_string (candidate !! "stage")
              +:+ " to " +:+ to_string (updates !! "stage")));
      ("timestamp", VStr (now_iso env 1));
      ("metadata",
        VObj (omap (λ '(k, v), pair k <$> v)
                [ ("from", candidate !! "stage"); ("to", updates !! "stage") ])) ].

(** [{ ...candidate, ...updates, updatedAt: new Date().toISOString() }]: the
    record the handler stores and returns. *)
Definition updatedCandidate (env : Env) (candidate updates : obj) : obj :=
  <["updatedAt" := VStr (now_iso env 0)]> (spread candidate updates).

(** [http.patch(`${API_BASE}/candidates/:id`, ...)], first registration
    (handlers.js, lines 285-326).  [updates] is the body as [request.json()]
    parsed it; a body that does not parse is not an input of this function
    (on it [request.json()] throws inside the [try], before any store call,
    and [handleError] answers 500). *)
Definition patch_candidate (env : Env) (id : string) (updates : obj) : M response :=
  try_catch
    (simulateNetwork env true ;;
     candidate ← db_candidates_get env id;
     match candidate with
     | None => mret (Json (Some {[ "error" := VStr "Candidate not found" ]}) 404)
     | Some candidate =>
         let updated := updatedCandidate env candidate updates in
         (if stage_changes updates candidate
          then db_timeline_add env (patch_event env id candidate updates)
          else mret ()) ;;
         db_candidates_update env id updated ;;
         mret (Json (Some updated) 200)
     end)
    handleError.

(** The event the second registration of the same route adds. *)
Definition patch2_event (env : Env) (id : string) (updates : obj) : obj :=
  list_to_map
    [ ("id", VStr id);
      ("candidateId", VStr id);
      ("type", VStr "stage_change");
      ("description", VStr ("Stage changed to " +:+ to_string (updates !! "stage")));
      ("timestamp", VStr (now_iso env 0));
      ("userName", VStr "Current User") ].

(** The second registration (handlers.js, lines 562-580); it has no
    [try]/[catch], so an error escapes the resolver. *)
Definition patch_candidate_2 (env : Env) (id : string) (updates : obj) : M response :=
  simulateNetwork env false ;;
  db_candidates_update env id updates ;;
  (if truthy (updates !! "stage")
   then db_timeline_add env (patch2_event env id updates)
   else mret ()) ;;
  updated ← db_candidates_get env id;
  mret (Json updated 200).

(** ** The Kanban board (CandidatesKanban.jsx) *)

Definition pageSize : nat := 50.

(** [filteredCandidates]: the query data, [[]] by default. *)
Definition filteredCandidates (w : World) : list obj := default [] (cache w).

(** [filteredCandidates.slice(start, start + pageSize)] with
    [start = (page - 1) * pageSize]. *)
Definition paginatedCandidates (page : nat) (w : World) : list obj :=
  take pageSize (drop ((page - 1) * pageSize) (filteredCandidates w)).

(** [candidate.id === id ? { ...candidate, stage } : candidate] *)
Definition with_stage (id stage : string) (candidate : obj) : obj :=
  if decide (is_str (candidate !! "id") id)
  then <["stage" := VStr stage]> candidate
  else candidate.

(** [queryClient.setQueryData(key, old => old.map(...))]: with no data in
    the cache the updater receives [undefined] and [old.map] throws. *)
Definition setQueryData_stage (id stage : string) : M unit := λ w,
  match cache w with
  | None => (inl (Error "TypeError" "Cannot read properties of undefined (reading 'map')"), w)
  | Some old => (inr (), set_cache (Some (with_stage id stage <$> old)) w)
  end.

(** [onMutate]: snapshot the cached list, apply the new stage to it, and
    return the snapshot as the mutation's context.  ([cancelQueries] stops
    the refetch in flight, if any: see [step] below for the query's fetch
    state; it changes nothing of the world.) *)
Definition onMutate (id stage : string) : M (list obj) :=
  previousCandidates ← gets filteredCandidates;
  setQueryData_stage id stage ;;
  mret previousCandidates.

(** [mutationFn] up to its [await]: the cache is written once more and
    [db.candidates.update(id, { stage })] is issued.  (The list it reads
    first only becomes its return value, which no callback uses.) *)
Definition mutationFn_issue (id stage : string) : M unit :=
  setQueryData_stage id stage ;;
  modify (log_call (candidates_update id {[ "stage" := VStr stage ]})).

(** The awaited [db.candidates.update] settles. *)
Definition mutationFn_settle (env : Env) (id stage : string) : M unit :=
  match fault env CandidatesUpdate with
  | Some e => throw e
  | None => modify (apply_update id {[ "stage" := VStr stage ]})
  end.

(** [onError]: put the snapshot back when there is one, and report. *)
Definition onError (context : option (list obj)) (w : World) : World :=
  toast "Error" "Failed to update candidate stage"
    (match context with
     | Some previousCandidates => set_cache (Some previousCandidates) w
     | None => w
     end).

(** [onSettled]: [invalidateQueries] marks the query stale and starts a
    refetch.  Here the invalidation is logged; the refetch is in flight from
    then on and overwrites the cache when it lands, which is a step of its
    own ([Refetch], below). *)
Definition onSettled (w : World) : World := invalidateQueries "candidates-kanban" w.

(** A mutation of react-query: its variables, the context [onMutate]
    returned, and its outcome once it has one. *)
Record Mutation := {
  m_id : string;
  m_stage : string;
  m_context : option (list obj);
  m_result : option (exn + unit);
}.

(** [mutate] up to the first suspension: [onMutate], then [mutationFn] as
    far as the store call.  An error in either ends the mutation here. *)
Definition start (id stage : string) (w : World) : Mutation * World :=
  match onMutate id stage w with
  | (inl e, w1) =>
      ({| m_id := id; m_stage := stage; m_context := None; m_result := Some (inl e) |},
       onSettled (onError None w1))
  | (inr context, w1) =>
      match mutationFn_issue id stage w1 with
      | (inl e, w2) =>
          ({| m_id := id; m_stage := stage; m_context := Some context;
              m_result := Some (inl e) |},
           onSettled (onError (Some context) w2))
      | (inr _, w2) =>
          ({| m_id := id; m_stage := stage; m_context := Some context;
              m_result := None |}, w2)
      end
  end.

(** The store call of a pending mutation settles: [onError] and [onSettled],
    or [onSettled] alone. *)
Definition settle (env : Env) (m : Mutation) (w : World) : Mutation * World :=
  match m_result m with
  | Some _ => (m, w)
  | None =>
      match mutationFn_settle env (m_id m) (m_stage m) w with
      | (inl e, w1) =>
          ({| m_id := m_id m; m_stage := m_stage m; m_context := m_context m;
              m_result := Some (inl e) |},
           onSettled (onError (m_context m) w1))
      | (inr _, w1) =>
          ({| m_id := m_id m; m_stage := m_stage m; m_context := m_context m;
              m_result := Some (inr ()) |},
           onSettled w1)
      end
  end.

(** [updateCandidateStage.mutateAsync({ id, stage })] with nothing else
    running in between: this is [commitStageChange] on the board. *)
Definition updateCandidateStage (env : Env) (id stage : string) (w : World)
  : Mutation * World :=
  let '(m, w1) := start id stage w in settle env m w1.

Definition failed (m : Mutation) : Prop := ∃ e, m_result m = Some (inl e).
Definition succeeded (m : Mutation) : Prop := m_result m = Some (inr ()).

(** The stage a drop resolves to: [over.id] itself when it names a column,
    otherwise the first column holding a card with that id. *)
Definition has_card (g : gmap string (list obj)) (over_id : string) (stage : StageDef) : Prop :=
  Exists (λ c, is_str (c !! "id") over_id) (column g (value stage)).

#[global] Instance has_card_dec g over_id stage : Decision (has_card g over_id stage).
Proof. unfold has_card. apply _. Defined.

Definition newStage (g : gmap string (list obj)) (over_id : string) : option string :=
  if decide (is_stage over_id) then Some over_id
  else value <$> head (filter (has_card g over_id) STAGES).

(** [filteredCandidates.find(c => c.id === candidateId)] *)
Definition find_candidate (cs : list obj) (candidateId : string) : option obj :=
  head (filter (λ c, is_str (c !! "id") candidateId) cs).

(** [handleDragEnd]: returns the mutation it awaited, if it started one.
    [over] is [None] when the card is released outside every target.  The
    handler closes over [filteredCandidates] and [candidatesByStage] of the
    last render; they are taken from the cache as it is when the card is
    dropped. *)
Definition handleDragEnd (env : Env) (page : nat) (active_id : string)
    (over : option string) (w : World) : option Mutation * World :=
  let w0 := setActiveId None w in
  match over with
  | None => (None, w0)
  | Some over_id =>
      let target := newStage (candidatesByStage (paginatedCandidates page w)) over_id in
      match find_candidate (filteredCandidates w) active_id, target with
      | Some candidate, Some stage =>
          if decide (is_str (candidate !! "stage") stage) then (None, w0)
          else if String.eqb stage "" then (None, w0)
          else let '(m, w1) := updateCandidateStage env active_id stage w0 in (Some m, w1)
      | _, _ => (None, w0)
      end
  end.

(** [handleDragStart] *)
Definition handleDragStart (active_id : string) (w : World) : World :=
  setActiveId (Some active_id) w.

(** ** The board's query and its refetch (CandidatesKanban.jsx) *)





(** [Table.toArray()]: the records by ascending primary key; string keys
    compare unit by unit. *)
Definition key_le (a b : string * obj) : Prop := String.leb a.1 b.1 = true.

#[global] Instance key_le_dec a b : Decision (key_le a b).
Proof. unfold key_le. apply _. Defined.













(** [c.stage] of the record with a given id, in the cache and in the store. *)
Definition cached_stage (w : World) (id : string) : option jsval :=
  c ← find_candidate (filteredCandidates w) id; c !! "stage".

Definition persisted_stage (w : World) (id : string) : option jsval :=
  c ← candidates w !! id; c !! "stage".

(** ** The candidates list (CandidatesList.jsx) *)

(** The event its mutation adds: no [id], no [title], no [metadata]. *)
Definition list_event (env : Env) (id stage : string) : obj :=
  list_to_map
    [ ("candidateId", VStr id);
      ("type", VStr "status_change");
      ("description", VStr ("Moved to " +:+ stage +:+ " stage"));
      ("timestamp", VNum (now_ms env));
      ("userName", VStr "System") ].

(** [mutationFn] of the list's [updateCandidateStage]. *)
Definition list_mutationFn (env : Env) (id stage : string) : M unit :=
  db_candidates_update env id {[ "stage" := VStr stage ]} ;;
  db_timeline_add env (list_event env id stage).

(** Its [onError]: a toast, nothing else. *)
Definition list_onError (w : World) : World :=
  toast "Error" "Failed to update candidate stage" w.

(** Its [onSuccess] invalidates [["candidates"]] and then reads [id], a
    name that nothing in CandidatesList.jsx binds: the [ReferenceError]
    makes react-query run [onError]. *)
Definition list_onSuccess (w : World) : World :=
  list_onError (invalidateQueries "candidates" w).

(** [handleStageDrop(candidateId, newStage)] over the fetched
    [candidatesData]; the result is [mutationFn]'s outcome when the
    mutation ran. *)
Definition handleStageDrop (env : Env) (candidatesData : list obj)
    (candidateId stage : string) (w : World) : option (exn + unit) * World :=
  if String.eqb candidateId "" || String.eqb stage "" then (None, w)
  else match find_candidate candidatesData candidateId with
       | None => (None, w)
       | Some candidate =>
           if decide (is_str (candidate !! "stage") stage) then (None, w)
           else match list_mutationFn env candidateId stage w with
                | (inl e, w1) => (Some (inl e), list_onError w1)
                | (inr _, w1) => (Some (inr ()), list_onSuccess w1)
                end
       end.

(** ** Paging of the board (CandidatesKanban.jsx) *)

(** The [Previous] button: [setPage(page => Math.max(1, page - 1))]. *)
Definition previousPage (page : nat) : nat := Nat.max 1 (page - 1).

(** The [Next] button:
    [setPage(page => (page * pageSize < filteredCandidates.length ? page + 1 : page))]. *)
Definition nextPage (len page : nat) : nat :=
  if Nat.ltb (page * pageSize) len then page + 1 else page.

Inductive Click := Previous | Next.

Definition click (len : nat) (page : nat) (c : Click) : nat :=
  match c with
  | Previous => previousPage page
  | Next => nextPage len page
  end.

(** [useState(1)] followed by a sequence of clicks, the list staying as it is. *)
Definition page_after (len : nat) (cs : list Click) : nat := foldl (click len) 1 cs.

(** ** The list view's board (KanbanBoard, in CandidateCard.jsx) *)

(** Its [candidatesByStage]: a [forEach] over its own [STAGES] that stores
    under every stage id the candidates filtered by that stage. *)
Definition KanbanBoard_candidatesByStage (filteredCandidates : list obj)
  : gmap string (list obj) :=
  foldl (λ groups stage,
           <[stage.1.1 := filter (at_stage stage.1.1) filteredCandidates]> groups)
        ∅ CandidateCard_STAGES.

(** What [handleDragOver] reads of the hovered target: [over.id] and
    [over.data?.current?.stage?.id].  A column registers
    [data: { type: 'column', stage }] under [id: stage.id]; a card registers
    [data: { type: 'candidate', candidate }], which has no [stage]. *)
Record Over := { over_id : string; over_stage_id : option string }.

Definition over_column (stage_id : string) : Over :=
  {| over_id := stage_id; over_stage_id := Some stage_id |}.

Definition over_card (candidate_id : string) : Over :=
  {| over_id := candidate_id; over_stage_id := None |}.

(** [Object.entries(candidatesByStage).find(([_, items]) =>
      items.some(item => item.id === activeId))?.[0]]: the entries come in
    insertion order, which is the order of [STAGES]. *)
Definition activeStage (groups : gmap string (list obj)) (activeId : string)
  : option string :=
  head (filter (λ s, Exists (λ item : obj, is_str (item !! "id") activeId) (column groups s))
               (CandidateCard_STAGES.*1.*1)).

(** [over.data?.current?.stage?.id || overId] *)
Definition overStage (over : Over) : string :=
  match over_stage_id over with
  | Some s => if String.eqb s "" then over_id over else s
  | None => over_id over
  end.

(** [handleDragOver] of the board: the arguments it passes to
    [onCandidateMove], when it calls it. *)
Definition KanbanBoard_handleDragOver (groups : gmap string (list obj))
    (activeId : string) (over : option Over) : option (string * string) :=
  match over with
  | None => None
  | Some over =>
      if decide (activeId = over_id over) then None
      else if decide (activeStage groups activeId = Some (overStage over)) then None
      else Some (activeId, overStage over)
  end.

(** The board inside the list view, [<KanbanBoard candidates={filteredCandidates}
    onCandidateMove={handleStageDrop} />]: a drag-over event on the board
    runs [handleStageDrop] with what [handleDragOver] passes.
    [boardCandidates] is the board's own filtered list (by its search box
    and stage selector), [candidatesData] the list view's fetched data. *)
Definition list_board_dragOver (env : Env) (candidatesData boardCandidates : list obj)
    (activeId : string) (over : option Over) (w : World)
  : option (exn + unit) * World :=
  match KanbanBoard_handleDragOver (KanbanBoard_candidatesByStage boardCandidates)
          activeId over with
  | Some (candidateId, stage) => handleStageDrop env candidatesData candidateId stage w
  | None => (None, w)
  end.

(** ** Reordering of jobs (handlers.js) *)

(** The Dexie operations the two reorder handlers use on [db.jobs]. *)
Inductive JobsOp := JobsGet | JobsUpdate | JobsModify | JobsToArray | JobsTransaction.

(** What a reorder request cannot control: the draw of [simulateNetwork],
    the handler's own draw ([Math.random() < 0.1], resp. [< 0.2]) and
    failures of the backing store. *)
Record JobsEnv := {
  network_fault : bool;
  reorder_fault : bool;
  jobs_fault : JobsOp → option exn;
}.

(** An [async] body over the jobs table (db.js: [jobs: 'id, slug, status,
    order'], keyed by its inbound primary key [id]). *)
Definition J (A : Type) : Type := gmap string obj → (exn + A) * gmap string obj.

#[global] Instance J_ret : MRet J := λ A x t, (inr x, t).

#[global] Instance J_bind : MBind J := λ A B f m t,
  match m t with
  | (inl e, t') => (inl e, t')
  | (inr x, t') => f x t'
  end.

Definition jobs_throw {A} (e : exn) : J A := λ t, (inl e, t).

Definition jobs_try_catch {A} (body : J A) (handler : exn → J A) : J A := λ t,
  match body t with
  | (inl e, t') => handler e t'
  | (inr x, t') => (inr x, t')
  end.

Definition jobs_gets {A} (f : gmap string obj → A) : J A := λ t, (inr (f t), t).

Definition jobs_modify (f : gmap string obj → gmap string obj) : J unit :=
  λ t, (inr (), f t).

Definition jobs_op (env : JobsEnv) (op : JobsOp) : J unit :=
  match jobs_fault env op with
  | Some e => jobs_throw e
  | None => mret ()
  end.

(** [Number.isSafeInteger(n)]: the numbers of the model are integers, and
    JavaScript's numbers are doubles; the two agree on the safe integers,
    where [n + 1], [n - 1] and the comparisons are exact.  The statements
    on orders are about safe integers. *)
Definition safe_integer (n : Z) : Prop := (- 2 ^ 53 < n < 2 ^ 53)%Z.

#[global] Instance safe_integer_dec n : Decision (safe_integer n).
Proof. unfold safe_integer. apply _. Defined.

(** [j.order], when it is a number (an integer, see [safe_integer]). *)
Definition job_order (j : obj) : option Z :=
  match j !! "order" with
  | Some (VNum n) => Some n
  | _ => None
  end.

(** [db.jobs.get(id)] *)
Definition db_jobs_get (env : JobsEnv) (id : string) : J (option obj) :=
  jobs_op env JobsGet ;; jobs_gets (λ t, t !! id).

(** [Table.update(key, changes)], as for the candidates. *)
Definition jobs_apply_update (id : string) (changes : obj) (t : gmap string obj)
  : gmap string obj :=
  match t !! id with
  | Some o => <[id := spread o changes]> t
  | None => t
  end.

Definition db_jobs_update (env : JobsEnv) (id : string) (changes : obj) : J unit :=
  jobs_op env JobsUpdate ;; jobs_modify (jobs_apply_update id changes).

(** [where('order').between(lower, upper, true, true)]: the records whose
    [order] is a number of the closed range.  In an index every key of
    another type sorts after all numbers, and a record without a valid
    [order] is not in the index. *)
Definition order_between (lower upper : Z) (j : obj) : bool :=
  match job_order j with
  | Some n => (lower <=? n)%Z && (n <=? upper)%Z
  | None => false
  end.

(** [job.order -= 1] and [job.order += 1], on a record of such a range
    (exact on safe integers). *)
Definition shift_order (d : Z) (j : obj) : obj :=
  match job_order j with
  | Some n => <["order" := VNum (n + d)]> j
  | None => j
  end.

(** [Collection.modify(f)] on that range: Dexie reads the keys of the
    collection first and then changes each of its records once, all in one
    transaction, so that a record whose [order] the function moves inside
    the range is not met a second time. *)
Definition db_jobs_modify_between (env : JobsEnv) (lower upper : Z) (f : obj → obj)
  : J unit :=
  jobs_op env JobsModify ;;
  jobs_modify (fmap (λ j, if order_between lower upper j then f j else j)).

(** The bodies the reorder handlers answer with: [{ success: true }],
    [{ error: msg }] as JSON, an [{ error: msg }] object handed to
    [new HttpResponse] as it is, and [null]. *)
Inductive ReplyBody :=
| body_success
| body_error (msg : string)
| body_object (msg : string)
| body_null.

Record reply := Reply { reply_body : ReplyBody; reply_status : nat }.

Definition jobs_simulateNetwork (env : JobsEnv) (isWrite : bool) : J unit :=
  if isWrite && network_fault env
  then jobs_throw (Error "Error" "Simulated network error")
  else mret ().

Definition jobs_handleError (error : exn) : J reply :=
  let msg := if String.eqb (err_message error) "" then "Internal Server Error"
             else err_message error in
  mret (Reply (body_error msg) 500).

(** [http.patch(`${API_BASE}/jobs/:id/reorder`, ...)], first registration
    (handlers.js, lines 133-178).  [fromOrder] and [toOrder] are the numbers
    of the request body. *)
Definition reorder_job (env : JobsEnv) (id : string) (fromOrder toOrder : Z) : J reply :=
  jobs_try_catch
    (jobs_simulateNetwork env true ;;
     (if reorder_fault env then jobs_throw (Error "Error" "Failed to reorder jobs")
      else mret ()) ;;
     job ← db_jobs_get env id;
     match job with
     | None => mret (Reply (body_error "Job not found") 404)
     | Some _ =>
         db_jobs_update env id {[ "order" := VNum toOrder ]} ;;
         (if (fromOrder <? toOrder)%Z
          then db_jobs_modify_between env (fromOrder + 1) toOrder (shift_order (-1))
          else db_jobs_modify_between env toOrder (fromOrder - 1) (shift_order 1)) ;;
         mret (Reply body_success 200)
     end)
    jobs_handleError.

(** [db.jobs.orderBy('order').toArray()]: the records of the [order] index
    by ascending order, each with the key it is stored under (which is its
    [id], the primary key being inbound).  Orders are numbers here, as the
    seed and the handlers write them. *)
Definition order_le (a b : string * obj) : Prop :=
  (default 0 (job_order a.2) ≤ default 0 (job_order b.2))%Z.

#[global] Instance order_le_dec a b : Decision (order_le a b).
Proof. unfold order_le. apply _. Defined.

Definition db_jobs_orderBy_order (env : JobsEnv) : J (list (string * obj)) :=
  jobs_op env JobsToArray ;;
  jobs_gets (λ t, merge_sort order_le
                    (filter (λ kj : string * obj, is_Some (job_order kj.2))
                            (map_to_list t))).

(** The two [forEach] loops that fill [updates] with [{ id: j.id, order }]
    (the tests and [j.order - 1], [j.order + 1] are exact on safe integers). *)
Definition shift_updates (fromOrder toOrder : Z) (jobs : list (string * obj))
  : list (string * Z) :=
  if (fromOrder <? toOrder)%Z
  then omap (λ j : string * obj,
               match job_order j.2 with
               | Some o => if (fromOrder <? o)%Z && (o <=? toOrder)%Z
                           then Some (j.1, (o - 1)%Z) else None
               | None => None
               end) jobs
  else omap (λ j : string * obj,
               match job_order j.2 with
               | Some o => if (toOrder <=? o)%Z && (o <? fromOrder)%Z
                           then Some (j.1, (o + 1)%Z) else None
               | None => None
               end) jobs.

(** [db.transaction('rw', db.jobs, body)]: all of the body's writes, or none. *)
Definition db_jobs_transaction {A} (env : JobsEnv) (body : J A) : J A := λ t,
  match jobs_fault env JobsTransaction with
  | Some e => (inl e, t)
  | None =>
      match body t with
      | (inl e, _) => (inl e, t)
      | (inr x, t') => (inr x, t')
      end
  end.

(** [Promise.all(updates.map(({ id, order }) => db.jobs.update(id, { order })))]:
    the updates are issued in the order of the array and run in that order
    inside the transaction. *)
Definition apply_updates (env : JobsEnv) (updates : list (string * Z)) : J unit :=
  foldr (λ u rest, db_jobs_update env u.1 {[ "order" := VNum u.2 ]} ;; rest)
        (mret ()) updates.

(** The second registration of the same route (handlers.js, lines 468-507);
    it has no [try]/[catch]. *)
Definition reorder_job_2 (env : JobsEnv) (id : string) (fromOrder toOrder : Z) : J reply :=
  jobs_simulateNetwork env false ;;
  if reorder_fault env
  then mret (Reply (body_object "Simulated server error during reorder") 500)
  else
    jobs ← db_jobs_orderBy_order env;
    match find (λ j : string * obj, bool_decide (j.1 = id)) jobs with
    | None => mret (Reply body_null 404)
    | Some _ =>
        let updates := shift_updates fromOrder toOrder jobs ++ [(id, toOrder)] in
        db_jobs_transaction env (apply_updates env updates) ;;
        mret (Reply body_success 200)
    end.

(** Every job carries a numeric [order]. *)
Definition numeric_orders (t : gmap string obj) : Prop :=
  ∀ k j, t !! k = Some j → is_Some (job_order j).

(** Every [order] of the table is a safe integer. *)
Definition safe_orders (t : gmap string obj) : Prop :=
  ∀ k j o, t !! k = Some j → job_order j = Some o → safe_integer o.

(** No two jobs share an [order]. *)
Definition distinct_orders (t : gmap string obj) : Prop :=
  ∀ k1 k2 j1 j2, t !! k1 = Some j1 → t !! k2 = Some j2 →
                 job_order j1 = job_order j2 → k1 = k2.

(** The [order] of the job stored under [k]. *)
Definition order_at (t : gmap string obj) (k : string) : option Z :=
  t !! k ≫= job_order.

(** ** The progress bar of the detail page (CandidateDetail.jsx) *)

(** [STAGES.findIndex((stage) => stage.id === candidate.stage)]: the first
    index, or -1. *)
Definition currentStageIndex (candidate : obj) : Z :=
  match list_find (λ stage : string * string * string, at_stage stage.1.1 candidate)
          CandidateDetail_STAGES with
  | Some (i, _) => Z.of_nat i
  | None => -1
  end.

(** [STAGES[currentStageIndex] || STAGES[0]], of which the page shows the
    [name]. *)
Definition currentStage (candidate : obj) : option (string * string * string) :=
  let i := currentStageIndex candidate in
  match (if (0 <=? i)%Z then CandidateDetail_STAGES !! Z.to_nat i else None) with
  | Some stage => Some stage
  | None => CandidateDetail_STAGES !! 0%nat
  end.

(** [index < currentStageIndex] *)
Definition isCompleted (candidate : obj) (index : nat) : bool :=
  (Z.of_nat index <? currentStageIndex candidate)%Z.

(** [index === currentStageIndex] *)
Definition isCurrent (candidate : obj) (index : nat) : bool :=
  (Z.of_nat index =? currentStageIndex candidate)%Z.

(** [candidate.stage === 'rejected' && index === currentStageIndex] *)
Definition isRejected (candidate : obj) (index : nat) : bool :=
  bool_decide (at_stage "rejected" candidate) && isCurrent candidate index.

(** ** The candidates hook (useCandidates) *)

(** [moveCandidateMutation]: [mutationFn] writes the stage and
    [lastUpdated]; [onSuccess] invalidates [['candidates']], [onError] only
    logs to the console. *)
Definition moveCandidate_mutationFn (env : Env) (id newStage : string) : M unit :=
  db_candidates_update env id
    (list_to_map [ ("stage", VStr newStage); ("lastUpdated", VStr (now_iso env 0)) ]).

(** [moveCandidate(candidateId, newStage)]: the outcome of the mutation it
    started, if any. *)
Definition moveCandidate (env : Env) (candidateId newStage : string) (w : World)
  : option (exn + unit) * World :=
  if String.eqb candidateId "" || String.eqb newStage "" then (None, w)
  else match moveCandidate_mutationFn env candidateId newStage w with
       | (inl e, w1) => (Some (inl e), w1)
       | (inr _, w1) => (Some (inr ()), invalidateQueries "candidates" w1)
       end.

(** ** Vocabulary of the statements *)

(** Nothing was persisted, fetched, shown or cached between [w] and [w']. *)
Definition untouched (w w' : World) : Prop :=
  calls w' = calls w ∧ timeline w' = timeline w ∧ candidates w' = candidates w
  ∧ cache w' = cache w ∧ toasts w' = toasts w.


(** Candidate ids are primary keys: no two records of a list share one. *)
Definition unique_ids (cs : list obj) : Prop := NoDup ((λ c : obj, c !! "id") <$> cs).

(** ** Sample data *)

Definition candidate_record (id name stage : string) : obj :=
  list_to_map
    [ ("id", VStr id); ("name", VStr name);
      ("email", VStr (id +:+ "@example.com"));
      ("skills", VArr [VStr "React"; VStr "Node.js"]);
      ("stage", VStr stage); ("jobId", VStr "job-1");
      ("updatedAt", VStr "2024-01-01T00:00:00.000Z") ].

Definition ann : obj := candidate_record "c1" "Ann" "screen".
Definition bob : obj := candidate_record "b" "Bob" "tech".
(** A record whose stage is not in the registry. *)
Definition eve : obj := candidate_record "c9" "Eve" "interview".

Definition world_of (cs : list obj) : World :=
  {| candidates := list_to_map ((λ c, (to_string (c !! "id"), c)) <$> cs);
     timeline := ∅; cache := Some cs; activeId := None;
     calls := []; toasts := []; invalidated := [] |}.

Definition cat : obj := candidate_record "c2" "Cat" "screen".

Definition w_ann : World := world_of [ann; bob].
Definition w_col : World := world_of [ann; cat; bob].

(** Nothing fails. *)
Definition env_ok : Env :=
  {| random_fault := false; fault := λ _, None; idb_message := λ n, n;
     now_iso := λ _, "2024-06-01T12:00:00.000Z"; now_ms := 1717243200000;
     uuid := "5f0c2a1e-0000-4000-8000-000000000001" |}.

(** [simulateNetwork] draws a failure. *)
Definition env_network_error : Env :=
  {| random_fault := true; fault := λ _, None; idb_message := λ n, n;
     now_iso := now_iso env_ok; now_ms := now_ms env_ok; uuid := uuid env_ok |}.

(** The backing store rejects [db.candidates.update]. *)
Definition env_update_fails : Env :=
  {| random_fault := false;
     fault := λ op, if decide (op = CandidatesUpdate)
                    then Some (Error "QuotaExceededError" "The quota has been exceeded.")
                    else None;
     idb_message := λ n, n;
     now_iso := now_iso env_ok; now_ms := now_ms env_ok; uuid := uuid env_ok |}.

(** Four jobs of the mock data, by their [order]. *)
Definition job_record (id title : string) (order : Z) : obj :=
  list_to_map
    [ ("id", VStr id); ("title", VStr title); ("status", VStr "active");
      ("order", VNum order) ].

Definition jobs_table : gmap string obj :=
  list_to_map
    [ ("job_1001", job_record "job_1001" "Senior Frontend Developer" 1);
      ("job_1002", job_record "job_1002" "Product Manager" 2);
      ("job_1003", job_record "job_1003" "DevOps Engineer" 3);
      ("job_1004", job_record "job_1004" "UX Designer" 4) ].

(** Nothing fails. *)
Definition jobs_env_ok : JobsEnv :=
  {| network_fault := false; reorder_fault := false; jobs_fault := λ _, None |}.

(** The backing store rejects [Collection.modify]. *)
Definition jobs_env_modify_fails : JobsEnv :=
  {| network_fault := false; reorder_fault := false;
     jobs_fault := λ op, match op with
                         | JobsModify => Some (Error "AbortError" "Transaction aborted")
                         | _ => None
                         end |}.

(** The handler's own draw fails the second handler. *)
Definition jobs_env_simulated_error : JobsEnv :=
  {| network_fault := false; reorder_fault := true; jobs_fault := λ _, None |}.

(** The cached list still shows Ann, whose record is gone from the store. *)
Definition w_stale : World :=
  set_candidates (delete "c1" (candidates w_ann)) w_ann.


(** * Properties *)

(** Decide a closed decidable proposition by evaluation. *)
Ltac by_evaluation := apply (bool_decide_unpack _); vm_compute; reflexivity.

(** ** The stage registry *)

(** The stage lists of the components, as their literals are written: each
    enumerates applied, screen, tech, offer, hired, rejected in this order,
    without repetition. *)
Theorem stage_registry_fixed :
  allStages = ["applied"; "screen"; "tech"; "offer"; "hired"; "rejected"]
  ∧ STAGE_TITLES.*1 = allStages
  ∧ CandidateCard_STAGES.*1.*1 = allStages
  ∧ CandidateDetail_STAGES.*1.*1 = allStages
  ∧ mock_stages = allStages
  ∧ seed_STAGES = allStages
  ∧ STAGE_LABELS.*1 = allStages
  ∧ filter_select_items.*1 = allStages
  ∧ NoDup allStages
  ∧ length STAGES = 6.
Proof.
  repeat split; try reflexivity.
  apply NoDup_ListNoDup. repeat constructor; cbn; intuition discriminate.
Qed.

Lemma NoDup_allStages : NoDup allStages.
Proof. apply NoDup_ListNoDup. repeat constructor; cbn; intuition discriminate. Qed.

Lemma is_stage_cases s :
  is_stage s ↔
  s = "applied" ∨ s = "screen" ∨ s = "tech" ∨ s = "offer" ∨ s = "hired" ∨ s = "rejected".
Proof.
  unfold is_stage, allStages. cbn. rewrite !elem_of_cons, elem_of_nil. tauto.
Qed.

(** ** The grouping view *)

Section Grouping.

Context {A : Type}.

(** Two disjoint decidable predicates split a list into two parts that
    together hold exactly the elements satisfying one of them. *)
Lemma filter_disjoint_app (P Q R : A → Prop)
    `{!∀ x, Decision (P x)} `{!∀ x, Decision (Q x)} `{!∀ x, Decision (R x)}
    (l : list A) :
  (∀ x, R x ↔ P x ∨ Q x) → (∀ x, P x → Q x → False) →
  filter P l ++ filter Q l ≡ₚ filter R l.
Proof.
  intros HR Hdis. induction l as [|x l IH]; [done|].
  rewrite !filter_cons.
  specialize (HR x). specialize (Hdis x).
  destruct (decide (P x)) as [HP|HP], (decide (Q x)) as [HQ|HQ],
           (decide (R x)) as [HRx|HRx];
    try (exfalso; tauto).
  - cbn. by rewrite IH.
  - rewrite <- Permutation_middle. by rewrite IH.
  - done.
Qed.

End Grouping.

Lemma concat_filter_stages (ss : list string) (cs : list obj) :
  NoDup ss →
  concat ((λ s, filter (at_stage s) cs) <$> ss) ≡ₚ filter (stage_in ss) cs.
Proof.
  induction 1 as [|s ss Hs Hnd IH]; cbn.
  - induction cs as [|c cs IHcs]; [done|].
    rewrite filter_cons. destruct (decide _) as [(s & Hin & _)|_]; [|done].
    by apply elem_of_nil in Hin.
  - rewrite IH. apply filter_disjoint_app.
    + intros c. unfold stage_in. split.
      * intros (s' & [->|Hin]%elem_of_cons & Hat); [by left|right; eauto].
      * intros [Hat|(s' & Hin & Hat)]; [exists s|exists s']; split; auto;
          apply elem_of_cons; auto.
    + intros c Hat (s' & Hin & Hat'). unfold at_stage, is_str in *.
      rewrite Hat in Hat'. by simplify_eq.
Qed.

(** The [reduce] pass: every stage visited gets its filtered list. *)
Lemma reduce_pass_lookup (cs : list obj) (ss : list StageDef)
    (acc : gmap string (list obj)) (s : string) :
  foldl (λ acc stage, <[value stage := filter (at_stage (value stage)) cs]> acc) acc ss !! s
  = if decide (s ∈ value <$> ss) then Some (filter (at_stage s) cs) else acc !! s.
Proof.
  revert acc. induction ss as [|st ss IH]; intros acc; cbn [foldl fmap list_fmap].
  - rewrite decide_False; [done|]. apply not_elem_of_nil.
  - rewrite IH. destruct (decide (s ∈ value <$> ss)) as [Hin|Hout].
    + rewrite decide_True; [done|]. by apply elem_of_cons; right.
    + destruct (decide (s = value st)) as [->|Hne].
      * rewrite lookup_insert_eq, decide_True; [done|]. by apply elem_of_cons; left.
      * rewrite lookup_insert_ne by done. rewrite decide_False; [done|].
        rewrite elem_of_cons. tauto.
Qed.

(** The [forEach] pass only adds keys that are still missing. *)
Lemma forEach_pass_lookup (ss : list StageDef) (g : gmap string (list obj)) (s : string) :
  foldl (λ grouped stage,
           match grouped !! value stage with
           | Some _ => grouped
           | None => <[value stage := []]> grouped
           end) g ss !! s
  = match g !! s with
    | Some l => Some l
    | None => if decide (s ∈ value <$> ss) then Some [] else None
    end.
Proof.
  revert g. induction ss as [|st ss IH]; intros g; cbn [foldl fmap list_fmap].
  - destruct (g !! s); [done|]. rewrite decide_False; [done|]. apply not_elem_of_nil.
  - rewrite IH. destruct (g !! value st) as [l|] eqn:Hst.
    + destruct (g !! s) as [l'|] eqn:Hs; [done|].
      destruct (decide (s ∈ value <$> ss)) as [Hin|Hout].
      * rewrite decide_True; [done|]. by apply elem_of_cons; right.
      * rewrite decide_False; [done|]. rewrite elem_of_cons.
        intros [->|?]; [congruence|done].
    + destruct (decide (s = value st)) as [->|Hne].
      * rewrite lookup_insert_eq, Hst. rewrite decide_True; [done|].
        by apply elem_of_cons; left.
      * rewrite lookup_insert_ne by done. destruct (g !! s); [done|].
        destruct (decide (s ∈ value <$> ss)) as [Hin|Hout].
        -- rewrite decide_True; [done|]. by apply elem_of_cons; right.
        -- rewrite decide_False; [done|]. rewrite elem_of_cons. tauto.
Qed.

(** The object [candidatesByStage] builds: one property per stage, holding
    the candidates filtered by that stage. *)
Lemma candidatesByStage_lookup (cs : list obj) (s : string) :
  candidatesByStage cs !! s =
    if decide (is_stage s) then Some (filter (at_stage s) cs) else None.
Proof.
  unfold candidatesByStage. cbv zeta.
  rewrite forEach_pass_lookup, reduce_pass_lookup, lookup_empty.
  fold allStages.
  destruct (decide (is_stage s)) as [Hs|Hs]; unfold is_stage in Hs.
  - by rewrite decide_True.
  - by rewrite !decide_False.
Qed.

Lemma column_candidatesByStage (cs : list obj) (s : string) :
  s ∈ allStages → column (candidatesByStage cs) s = filter (at_stage s) cs.
Proof.
  intros Hs. unfold column. rewrite candidatesByStage_lookup.
  by rewrite decide_True.
Qed.

Lemma all_columns_candidatesByStage (cs : list obj) :
  all_columns (candidatesByStage cs) ≡ₚ filter staged cs.
Proof.
  unfold all_columns, staged.
  rewrite <- (concat_filter_stages allStages cs NoDup_allStages).
  assert (column (candidatesByStage cs) <$> allStages
          = (λ s, filter (at_stage s) cs) <$> allStages) as ->; [|done].
  apply list_fmap_ext. intros i s Hs.
  apply column_candidatesByStage. by eapply list_elem_of_lookup_2.
Qed.

(** C5, as the specification words it, does not hold: a candidate whose stage
    is outside the registry is in no column. *)
Lemma grouping_drops_unstaged :
  (∀ s, s ∈ allStages → is_Some (candidatesByStage [ann; eve] !! s))
  ∧ all_columns (candidatesByStage [ann; eve]) = [ann]
  ∧ ¬ (all_columns (candidatesByStage [ann; eve]) ≡ₚ [ann; eve]).
Proof.
  assert (E : all_columns (candidatesByStage [ann; eve]) = [ann]) by (by vm_compute).
  split; [|split; [done|]].
  - intros s Hs. rewrite candidatesByStage_lookup.
    rewrite decide_True by done. eauto.
  - rewrite E. intros HP. apply Permutation_length in HP. discriminate.
Qed.

(** C5 (amended): for every candidate collection, [candidatesByStage] has
    exactly the registry stages as keys (an empty list where no candidate is
    at that stage), each column holds the candidates at that stage in input
    order, and the columns together contain each candidate whose stage is in
    the registry exactly as often as the input does, and no other candidate:
    nothing is duplicated across columns, and only candidates with a stage
    outside the registry are left out. *)
Theorem grouping_complete_on_registry_stages (cs : list obj) :
  dom (candidatesByStage cs) = list_to_set allStages
  ∧ (∀ s, s ∈ allStages → candidatesByStage cs !! s = Some (filter (at_stage s) cs))
  ∧ all_columns (candidatesByStage cs) ≡ₚ filter staged cs
  ∧ (∀ c, c ∈ cs → ¬ staged c → c ∉ all_columns (candidatesByStage cs)).
Proof.
  split; [|split; [|split]].
  - apply set_eq. intros s. rewrite elem_of_dom, elem_of_list_to_set.
    rewrite candidatesByStage_lookup. unfold is_stage.
    destruct (decide (s ∈ allStages)) as [Hs|Hs].
    + split; eauto.
    + split; [intros [? ?]; discriminate | done].
  - intros s Hs. rewrite candidatesByStage_lookup. by rewrite decide_True.
  - apply all_columns_candidatesByStage.
  - intros c _ Hc Hin. rewrite all_columns_candidatesByStage in Hin.
    apply list_elem_of_filter in Hin. tauto.
Qed.

(** Ann and Eve: Ann is in the column of her stage, Eve in none. *)
Lemma grouping_complete_on_registry_stages_witness :
  candidatesByStage [ann; eve] !! "screen" = Some (filter (at_stage "screen") [ann; eve])
  ∧ eve ∉ all_columns (candidatesByStage [ann; eve]).
Proof.
  destruct (grouping_complete_on_registry_stages [ann; eve]) as (_ & Hcol & _ & Hout).
  split.
  - apply Hcol. by_evaluation.
  - apply Hout; by_evaluation.
Defined.

(** ** The optimistic mutation of the board *)

Lemma with_stage_idem (id stage : string) (c : obj) :
  with_stage id stage (with_stage id stage c) = with_stage id stage c.
Proof.
  unfold with_stage. destruct (decide (is_str (c !! "id") id)) as [Hid|Hid].
  - rewrite decide_True.
    + by rewrite insert_insert_eq.
    + unfold is_str in *. by rewrite lookup_insert_ne.
  - by rewrite decide_False.
Qed.

Lemma with_stage_id (id stage : string) (c : obj) :
  with_stage id stage c !! "id" = c !! "id".
Proof.
  unfold with_stage. case_decide; [|done]. by rewrite lookup_insert_ne.
Qed.

Lemma with_stage_other (a b stage : string) (c : obj) :
  a ≠ b → is_str (c !! "id") b → with_stage a stage c = c.
Proof.
  intros Hne Hb. unfold with_stage. rewrite decide_False; [done|].
  unfold is_str in *. rewrite Hb. congruence.
Qed.

(** [{ stage }] applied to a stored record replaces its [stage] property. *)
Lemma spread_stage (stage : string) (c : obj) :
  spread c {[ "stage" := VStr stage ]} = <["stage" := VStr stage]> c.
Proof. unfold spread. by rewrite insert_union_singleton_l. Qed.

(** Unfold the monadic plumbing of a handler. *)
Ltac unfold_M :=
  unfold mbind, M_bind, mret, M_ret, gets, modify, throw, try_catch in *.

(** [start] when the cache holds a list: the list is the context, the cache
    shows the new stage and the store call is issued. *)
Lemma start_cached id stage w l :
  cache w = Some l →
  start id stage w =
    ({| m_id := id; m_stage := stage; m_context := Some l; m_result := None |},
     log_call (candidates_update id {[ "stage" := VStr stage ]})
       (set_cache (Some (with_stage id stage <$> l)) w)).
Proof.
  intros Hc. unfold start, onMutate, mutationFn_issue, setQueryData_stage,
    filteredCandidates. unfold_M. rewrite Hc. cbn.
  assert (with_stage id stage <$> (with_stage id stage <$> l)
          = with_stage id stage <$> l) as ->.
  { rewrite <- list_fmap_compose. apply list_fmap_ext.
    intros i c _. apply with_stage_idem. }
  by destruct w.
Qed.

(** [start] when the cache holds nothing: [onMutate] throws, the mutation
    is over, and no store call was issued. *)
Lemma start_uncached id stage w :
  cache w = None →
  ∃ e, start id stage w =
    ({| m_id := id; m_stage := stage; m_context := None; m_result := Some (inl e) |},
     onSettled (onError None w)).
Proof.
  intros Hc. unfold start, onMutate, setQueryData_stage, filteredCandidates.
  unfold_M. rewrite Hc. cbn. eauto.
Qed.

(** What one uninterrupted [mutateAsync] does, case by case. *)
Lemma updateCandidateStage_cases env id stage w m w' :
  updateCandidateStage env id stage w = (m, w') →
  m_id m = id ∧ m_stage m = stage ∧ timeline w' = timeline w ∧ activeId w' = activeId w ∧
  match cache w with
  | None =>
      failed m ∧ m_context m = None ∧ cache w' = None
      ∧ candidates w' = candidates w ∧ calls w' = calls w
  | Some l =>
      m_context m = Some l
      ∧ calls w' = calls w ++ [candidates_update id {[ "stage" := VStr stage ]}]
      ∧ match fault env CandidatesUpdate with
        | Some e =>
            m_result m = Some (inl e) ∧ cache w' = Some l
            ∧ candidates w' = candidates w
        | None =>
            m_result m = Some (inr ()) ∧ cache w' = Some (with_stage id stage <$> l)
            ∧ candidates w' = candidates (apply_update id {[ "stage" := VStr stage ]} w)
        end
  end.
Proof.
  unfold updateCandidateStage. destruct (cache w) as [l|] eqn:Hc.
  - rewrite (start_cached _ _ _ _ Hc). unfold settle, mutationFn_settle. cbn.
    unfold_M. destruct (fault env CandidatesUpdate) as [e|] eqn:Hf; cbn.
    + intros [= <- <-]. cbn. done.
    + intros [= <- <-]. cbn.
      repeat split; try done; unfold apply_update; cbn;
        by destruct (candidates w !! id).
  - destruct (start_uncached id stage w Hc) as [e ->]. cbn.
    intros [= <- <-]. cbn. rewrite Hc. unfold failed. cbn. eauto 10.
Qed.

(** The list's [mutationFn] never resolves: the event it adds has no [id].
    It appends no event, and it leaves the stage written unless the update
    itself was rejected. *)
Lemma list_mutationFn_rejects env id stage w :
  ∃ e w', list_mutationFn env id stage w = (inl e, w')
    ∧ timeline w' = timeline w ∧ cache w' = cache w ∧ toasts w' = toasts w
    ∧ candidates w' =
        match fault env CandidatesUpdate with
        | Some _ => candidates w
        | None => candidates (apply_update id {[ "stage" := VStr stage ]} w)
        end.
Proof.
  unfold list_mutationFn, db_candidates_update, db_timeline_add, store_op.
  unfold_M. cbn.
  destruct (fault env CandidatesUpdate) as [e|]; cbn; [eauto 10|].
  destruct (fault env TimelineAdd) as [e|]; cbn.
  - do 2 eexists. split; [done|]. unfold apply_update. cbn.
    by destruct (candidates w !! id).
  - do 2 eexists. split; [done|]. unfold apply_update. cbn.
    by destruct (candidates w !! id).
Qed.

Lemma settle_pending env id stage ctx w :
  settle env {| m_id := id; m_stage := stage; m_context := ctx; m_result := None |} w
  = match fault env CandidatesUpdate with
    | Some e =>
        ({| m_id := id; m_stage := stage; m_context := ctx; m_result := Some (inl e) |},
         onSettled (onError ctx w))
    | None =>
        ({| m_id := id; m_stage := stage; m_context := ctx; m_result := Some (inr ()) |},
         onSettled (apply_update id {[ "stage" := VStr stage ]} w))
    end.
Proof.
  unfold settle, mutationFn_settle. unfold_M. cbn.
  by destruct (fault env CandidatesUpdate).
Qed.

(** C3: when a stage change fails, the cached candidate list is exactly the
    snapshot taken before the optimistic update (so every cached record
    equals its earlier self, field for field) and no timeline event was
    appended.  On the board the snapshot is [onMutate]'s context and
    [onError] restores it, whatever happened to the cache while the store
    call was pending; the list view never writes its cache, and its
    [mutationFn] can fail only before the event is stored. *)
Theorem failed_commit_restores_snapshot :
  (∀ env id stage w m w',
     updateCandidateStage env id stage w = (m, w') → failed m →
     cache w' = cache w
     ∧ (∀ previousCandidates,
          m_context m = Some previousCandidates → cache w' = Some previousCandidates)
     ∧ (∀ id', find_candidate (filteredCandidates w') id'
               = find_candidate (filteredCandidates w) id')
     ∧ timeline w' = timeline w)
  ∧ (∀ env m w previousCandidates,
       m_result m = None → m_context m = Some previousCandidates →
       failed (settle env m w).1 →
       cache (settle env m w).2 = Some previousCandidates
       ∧ timeline (settle env m w).2 = timeline w)
  ∧ (∀ env candidatesData id stage w e w',
       handleStageDrop env candidatesData id stage w = (Some (inl e), w') →
       cache w' = cache w ∧ timeline w' = timeline w).
Proof.
  split; [|split].
  - intros env id stage w m w' Hrun [e He].
    apply updateCandidateStage_cases in Hrun as (_ & _ & Htl & _ & Hcase).
    assert (cache w' = cache w
            ∧ ∀ p, m_context m = Some p → cache w' = Some p) as [Hc Hctx].
    { destruct (cache w) as [l|].
      - destruct Hcase as (Hctx & _ & Hcase).
        destruct (fault env CandidatesUpdate) as [e'|].
        + destruct Hcase as (_ & Hc & _). split; [done|]. intros p Hp. congruence.
        + destruct Hcase as (Hres & _). congruence.
      - destruct Hcase as (_ & Hctx & Hc & _). split; [done|]. congruence. }
    repeat split; try done. intros id'. unfold filteredCandidates. by rewrite Hc.
  - intros env [id stage ctx res] w p. cbn. intros -> ->.
    rewrite settle_pending.
    destruct (fault env CandidatesUpdate) as [e|]; cbn.
    + done.
    + intros [e He]. discriminate He.
  - intros env candidatesData id stage w e w'. unfold handleStageDrop.
    destruct (_ || _); [done|].
    destruct (find_candidate candidatesData id) as [c|]; [|done].
    case_decide; [done|].
    destruct (list_mutationFn_rejects env id stage w) as (e' & w1 & -> & Htl & Hc & _).
    intros [= <- <-]. cbn. done.
Qed.

(** A failing board commit (the store rejects the update of Ann's record),
    alone and as the second of two pending mutations, and a failing list
    view commit. *)
Lemma failed_commit_restores_snapshot_witness :
  cache (updateCandidateStage env_update_fails "c1" "offer" w_ann).2 = cache w_ann
  ∧ timeline (updateCandidateStage env_update_fails "c1" "offer" w_ann).2 = timeline w_ann
  ∧ cache (settle env_update_fails (start "c1" "offer" w_ann).1
             (start "b" "hired" (start "c1" "offer" w_ann).2).2).2 = cache w_ann
  ∧ timeline (handleStageDrop env_ok [ann; bob] "c1" "offer" w_ann).2 = timeline w_ann.
Proof.
  destruct failed_commit_restores_snapshot as (Hboard & Hpending & Hlist).
  pose proof (Hboard env_update_fails "c1" "offer" w_ann _ _ (surjective_pairing _)) as H1.
  pose proof (Hpending env_update_fails (start "c1" "offer" w_ann).1
                (start "b" "hired" (start "c1" "offer" w_ann).2).2 [ann; bob]) as H2.
  pose proof (Hlist env_ok [ann; bob] "c1" "offer" w_ann
                (Error "DataError" "DataError")
                (handleStageDrop env_ok [ann; bob] "c1" "offer" w_ann).2) as H3.
  destruct H1 as (Hc & _ & _ & Htl).
  { eexists. vm_compute. reflexivity. }
  destruct H2 as (Hc2 & _).
  { vm_compute. reflexivity. }
  { vm_compute. reflexivity. }
  { eexists. vm_compute. reflexivity. }
  destruct H3 as (_ & Htl3).
  { vm_compute. reflexivity. }
  split; [exact Hc|split; [exact Htl|split; [exact Hc2|exact Htl3]]].
Defined.

(** ** The PATCH handler *)


Lemma patch_event_id env id c updates :
  patch_event env id c updates !! "id" = Some (VStr (uuid env)).
Proof. unfold patch_event. cbn. by simplify_map_eq. Qed.

(** Storing the merged record over the one it was merged from gives the
    merged record. *)
Lemma spread_updatedCandidate env c updates :
  spread c (updatedCandidate env c updates) = updatedCandidate env c updates.
Proof.
  unfold spread, updatedCandidate, spread. apply map_eq. intros k.
  rewrite lookup_union.
  destruct (decide (k = "updatedAt")) as [->|Hk].
  - rewrite lookup_insert_eq. by destruct (c !! "updatedAt").
  - rewrite lookup_insert_ne by done. rewrite lookup_union.
    destruct (updates !! k), (c !! k); done.
Qed.

(** Answer 200: the candidate existed, the merged record is stored, and
    the timeline grew by the stage-change event exactly when the stage
    changed. *)
(** Close a branch in which the handler answered with another status than
    the one assumed. *)
Ltac other_status :=
  let Hrun := fresh "Hrun" in let Hst := fresh "Hst" in
  let Hr := fresh "Hr" in let Hw := fresh "Hw" in
  intros Hrun Hst; injection Hrun as Hr Hw; subst; cbn in Hst; discriminate.

Lemma patch_candidate_200 env id updates w resp w' :
  patch_candidate env id updates w = (inr resp, w') → status resp = 200 →
  ∃ c, candidates w !! id = Some c
       ∧ body resp = Some (updatedCandidate env c updates)
       ∧ candidates w' = <[id := updatedCandidate env c updates]> (candidates w)
       ∧ cache w' = cache w
       ∧ if stage_changes updates c
         then timeline w !! uuid env = None
              ∧ timeline w' = <[uuid env := patch_event env id c updates]> (timeline w)
         else timeline w' = timeline w.
Proof.
  unfold patch_candidate, simulateNetwork, db_candidates_get, db_candidates_update,
    db_timeline_add, store_op, handleError. unfold_M.
  destruct (random_fault env); cbn -[patch_event]; [other_status|].
  destruct (fault env CandidatesGet); cbn -[patch_event]; [other_status|].
  destruct (candidates w !! id) as [c|] eqn:Hc; cbn -[patch_event];
    [|other_status].
  fold (updatedCandidate env c updates).
  destruct (stage_changes updates c) eqn:Hsc; cbn -[patch_event].
  - destruct (fault env TimelineAdd); cbn -[patch_event]; [other_status|].
    rewrite patch_event_id. cbn -[patch_event].
    destruct (timeline w !! uuid env) eqn:Hfresh; cbn -[patch_event];
      [other_status|].
    destruct (fault env CandidatesUpdate); cbn -[patch_event]; [other_status|].
    intros Hrun _; injection Hrun as <- <-. exists c. unfold apply_update. cbn -[patch_event].
    rewrite Hc, Hsc. cbn -[patch_event]. by rewrite spread_updatedCandidate.
  - destruct (fault env CandidatesUpdate); cbn -[patch_event]; [other_status|].
    intros Hrun _; injection Hrun as <- <-. exists c. unfold apply_update. cbn -[patch_event].
    rewrite Hc, Hsc. cbn -[patch_event]. by rewrite spread_updatedCandidate.
Qed.

(** On the PATCH path a stage change from [s] to [t] that is answered with
    200 stores exactly one new event, of type [stage_change] with metadata
    [{from: s, to: t}], and the stored stage is [t]. *)
Lemma patch_appends_stage_change env id updates w resp w' c s t :
  patch_candidate env id updates w = (inr resp, w') → status resp = 200 →
  candidates w !! id = Some c →
  c !! "stage" = Some (VStr s) → updates !! "stage" = Some (VStr t) →
  t ≠ s → t ≠ "" →
  ∃ ev, timeline w !! uuid env = None
        ∧ timeline w' = <[uuid env := ev]> (timeline w)
        ∧ size (timeline w') = S (size (timeline w))
        ∧ ev !! "type" = Some (VStr "stage_change")
        ∧ ev !! "candidateId" = Some (VStr id)
        ∧ ev !! "metadata" = Some (VObj [("from", VStr s); ("to", VStr t)])
        ∧ persisted_stage w' id = Some (VStr t).
Proof.
  intros Hrun Hst Hc Hs Ht Hne Hnz.
  destruct (patch_candidate_200 _ _ _ _ _ _ Hrun Hst) as (c' & Hc' & _ & Hdb & _ & Htl).
  rewrite Hc in Hc'. injection Hc' as <-.
  assert (stage_changes updates c = true) as Hsc.
  { unfold stage_changes. rewrite Ht, Hs. cbn.
    apply andb_true_intro. split; apply negb_true_iff, String.eqb_neq; done. }
  rewrite Hsc in Htl. destruct Htl as [Hfresh Htl].
  exists (patch_event env id c updates). repeat split; try done.
  - rewrite Htl. by apply map_size_insert_None.
  - unfold patch_event. cbn. by rewrite Hs, Ht.
  - unfold persisted_stage. rewrite Hdb, lookup_insert_eq. cbn.
    unfold updatedCandidate, spread. rewrite lookup_insert_ne by done.
    rewrite lookup_union, Ht. by destruct (c !! "stage").
Qed.

(** The board's mutation never touches the timeline table. *)
Lemma kanban_never_appends env id stage w :
  timeline (updateCandidateStage env id stage w).2 = timeline w.
Proof.
  destruct (updateCandidateStage env id stage w) as [m w'] eqn:Hrun.
  by apply updateCandidateStage_cases in Hrun as (_ & _ & Htl & _).
Qed.

(** C1 (the drag paths do not do what the PATCH handler does).  Ann is at
    [screen]; dragging her card to [offer] on the board succeeds and stores
    the stage [offer], yet the timeline table is as empty as before: no
    [stage_change] event is written.  The same drop through the list view
    stores the stage too, but its [mutationFn] is rejected while adding an
    event that has type [status_change], no [metadata] and no [id]. *)
Theorem drag_commit_appends_no_stage_change_event :
  (let '(m, w') := updateCandidateStage env_ok "c1" "offer" w_ann in
   persisted_stage w_ann "c1" = Some (VStr "screen")
   ∧ succeeded m
   ∧ persisted_stage w' "c1" = Some (VStr "offer")
   ∧ timeline w' = ∅)
  ∧ (let '(r, w') := handleStageDrop env_ok [ann; bob] "c1" "offer" w_ann in
     r = Some (inl (Error "DataError" "DataError"))
     ∧ persisted_stage w' "c1" = Some (VStr "offer")
     ∧ timeline w' = ∅
     ∧ list_event env_ok "c1" "offer" !! "type" = Some (VStr "status_change")
     ∧ list_event env_ok "c1" "offer" !! "metadata" = None
     ∧ list_event env_ok "c1" "offer" !! "id" = None).
Proof. vm_compute. repeat split; reflexivity. Qed.

(** C2 (a failed stage change can leave half of its effect).  The PATCH
    handler adds the event before it updates the candidate, outside any
    transaction: when the store rejects the update, the answer is 500, the
    stored stage is still [screen], and the [stage_change] event is in the
    timeline.  The list view writes in the other order: its rejected
    mutation leaves the new stage stored and no event. *)
Theorem failed_stage_change_leaves_partial_write :
  (let '(r, w') := patch_candidate env_update_fails "c1" {[ "stage" := VStr "offer" ]} w_ann in
   (∃ resp, r = inr resp ∧ status resp = 500)
   ∧ persisted_stage w' "c1" = Some (VStr "screen")
   ∧ size (timeline w_ann) = 0 ∧ size (timeline w') = 1
   ∧ (ev ← timeline w' !! uuid env_update_fails; ev !! "type") = Some (VStr "stage_change"))
  ∧ (let '(r, w') := handleStageDrop env_ok [ann; bob] "c1" "offer" w_ann in
     (∃ e, r = Some (inl e))
     ∧ persisted_stage w_ann "c1" = Some (VStr "screen")
     ∧ persisted_stage w' "c1" = Some (VStr "offer")
     ∧ size (timeline w') = 0).
Proof. vm_compute. repeat split; eauto. Qed.

(** [simulateNetwork] runs before the lookup: with an unknown id the first
    PATCH handler answers 500, not 404, when it throws. *)
Lemma unknown_id_network_error_is_500 :
  candidates w_ann !! "nobody" = None
  ∧ (patch_candidate env_network_error "nobody" {[ "stage" := VStr "offer" ]} w_ann).1
    = inr (Json (Some {[ "error" := VStr "Simulated network error" ]}) 500)
  ∧ ¬ (∃ resp,
         (patch_candidate env_network_error "nobody" {[ "stage" := VStr "offer" ]} w_ann).1
         = inr resp ∧ status resp = 404).
Proof.
  assert (E : (patch_candidate env_network_error "nobody"
                 {[ "stage" := VStr "offer" ]} w_ann).1
              = inr (Json (Some {[ "error" := VStr "Simulated network error" ]}) 500))
    by (by vm_compute).
  split; [by vm_compute|]. split; [exact E|].
  rewrite E. intros (resp & [= <-] & Hst). discriminate Hst.
Qed.

(** On the board an unknown id is no failure at all: [Table.update] finds
    no record and resolves. *)
Lemma kanban_unknown_id_succeeds :
  candidates w_ann !! "nobody" = None
  ∧ succeeded (updateCandidateStage env_ok "nobody" "offer" w_ann).1
  ∧ candidates (updateCandidateStage env_ok "nobody" "offer" w_ann).2 = candidates w_ann.
Proof. by vm_compute. Qed.

(** Answer 404 means that no candidate has the id: no failure of the store
    or of the simulated network is answered that way. *)
Lemma patch_candidate_404 env id updates w resp w' :
  patch_candidate env id updates w = (inr resp, w') → status resp = 404 →
  candidates w !! id = None.
Proof.
  unfold patch_candidate, simulateNetwork, db_candidates_get, db_candidates_update,
    db_timeline_add, store_op, handleError. unfold_M.
  destruct (random_fault env); cbn -[patch_event]; [other_status|].
  destruct (fault env CandidatesGet); cbn -[patch_event]; [other_status|].
  destruct (candidates w !! id) as [c|] eqn:Hc; cbn -[patch_event]; [|done].
  destruct (stage_changes updates c); cbn -[patch_event].
  - destruct (fault env TimelineAdd); cbn -[patch_event]; [other_status|].
    rewrite patch_event_id. cbn -[patch_event].
    destruct (timeline w !! uuid env); cbn -[patch_event]; [other_status|].
    destruct (fault env CandidatesUpdate); cbn -[patch_event]; other_status.
  - destruct (fault env CandidatesUpdate); cbn -[patch_event]; other_status.
Qed.

(** C6 (the board's commit has no not-found outcome).  The cached list
    still shows Ann, whose record is no longer in the store.  Dropping her
    card on [offer] starts the mutation; [Table.update] finds no record and
    resolves, so the mutation succeeds: no error is reported, nothing is
    stored, and the cache shows Ann at [offer].  The PATCH handler answers
    404 for the same id. *)
Theorem unknown_id_commit_reports_success :
  candidates w_stale !! "c1" = None
  ∧ (let '(r, w') := handleDragEnd env_ok 1 "c1" (Some "offer") w_stale in
     (∃ m, r = Some m ∧ m_id m = "c1" ∧ m_result m = Some (inr ()))
     ∧ candidates w' = candidates w_stale
     ∧ timeline w' = timeline w_stale
     ∧ toasts w' = []
     ∧ cached_stage w' "c1" = Some (VStr "offer"))
  ∧ (patch_candidate env_ok "c1" {[ "stage" := VStr "offer" ]} w_stale).1
    = inr (Json (Some {[ "error" := VStr "Candidate not found" ]}) 404).
Proof.
  vm_compute. repeat split; try reflexivity. eexists. repeat split.
Qed.

(** ** What a commit on the board writes *)



(** ** Drops that change nothing *)

Lemma unique_ids_eq cs (x y : obj) :
  unique_ids cs → x ∈ cs → y ∈ cs → x !! "id" = y !! "id" → x = y.
Proof.
  unfold unique_ids. induction cs as [|z cs IH]; cbn.
  - intros _ Hx. by apply elem_of_nil in Hx.
  - intros [Hz Hnd]%NoDup_cons [->|Hx]%elem_of_cons [->|Hy]%elem_of_cons Hid; auto.
    + exfalso. apply Hz. rewrite Hid. by apply list_elem_of_fmap_2.
    + exfalso. apply Hz. rewrite <- Hid. by apply list_elem_of_fmap_2.
Qed.

Lemma find_candidate_unique cs id c :
  unique_ids cs → c ∈ cs → is_str (c !! "id") id → find_candidate cs id = Some c.
Proof.
  intros Hu Hc Hid. unfold find_candidate.
  destruct (head (filter _ cs)) as [x|] eqn:Hx.
  - apply head_Some_elem_of, list_elem_of_filter in Hx as [Hxid Hxin].
    f_equal. apply (unique_ids_eq cs); auto. unfold is_str in *. congruence.
  - apply head_None in Hx.
    assert (c ∈ filter (λ c0 : obj, is_str (c0 !! "id") id) cs) as Hin
      by (by apply list_elem_of_filter).
    rewrite Hx in Hin. by apply elem_of_nil in Hin.
Qed.

Lemma paginated_subseteq page w : paginatedCandidates page w ⊆ filteredCandidates w.
Proof.
  unfold paginatedCandidates. etrans; [apply subseteq_take|apply subseteq_drop].
Qed.

(** A card sits in the column of its own stage, and columns exist only for
    registry stages. *)
Lemma elem_of_column cs s c :
  c ∈ column (candidatesByStage cs) s ↔ s ∈ allStages ∧ at_stage s c ∧ c ∈ cs.
Proof.
  unfold column. rewrite candidatesByStage_lookup. unfold is_stage.
  destruct (decide (s ∈ allStages)) as [Hs|Hs]; cbn.
  - rewrite list_elem_of_filter. tauto.
  - rewrite elem_of_nil. tauto.
Qed.

(** Dropping on a card resolves to the column of that card, provided the
    card's id is not itself a column name and ids are unique. *)
Lemma newStage_of_card cs over_id o s :
  unique_ids cs → ¬ is_stage over_id →
  o ∈ column (candidatesByStage cs) s → is_str (o !! "id") over_id →
  newStage (candidatesByStage cs) over_id = Some s.
Proof.
  intros Hu Hns [Hs [Hat Ho]]%elem_of_column Hid.
  unfold newStage. rewrite decide_False by done.
  assert (∀ st, has_card (candidatesByStage cs) over_id st → value st = s) as Honly.
  { intros st (card & [Hst [Hat' Hcard]]%elem_of_column & Hcid)%Exists_exists.
    assert (card = o) as ->.
    { apply (unique_ids_eq cs); auto. unfold is_str in *. congruence. }
    unfold at_stage, is_str in *. congruence. }
  destruct (head (filter _ STAGES)) as [st|] eqn:Hh; cbn.
  - apply head_Some_elem_of, list_elem_of_filter in Hh as [Hcard _].
    f_equal. by apply Honly.
  - apply head_None in Hh. exfalso.
    unfold allStages in Hs. apply list_elem_of_fmap in Hs as (st & -> & Hst).
    assert (st ∈ filter (has_card (candidatesByStage cs) over_id) STAGES) as Hin.
    { apply list_elem_of_filter. split; [|done].
      apply Exists_exists. exists o. split; [|done].
      apply elem_of_column. split; [|done].
      unfold allStages. by apply list_elem_of_fmap_2. }
    rewrite Hh in Hin. by apply elem_of_nil in Hin.
Qed.

(** A drop that resolves to the candidate's current stage is a no-op: no
    store call is issued, no timeline event is created and the cached view
    is not updated; the drag session just returns to idle.  This holds on
    the board when the resolved target stage is the candidate's stage, in
    particular when the card is dropped on another card of its own column
    (candidate ids being unique and different from the column names), and
    in the list view's [handleStageDrop] when the stage it is handed is the
    candidate's stage. *)
Theorem drop_on_current_stage_is_noop env page w :
  (∀ active over_id c s,
     find_candidate (filteredCandidates w) active = Some c → at_stage s c →
     newStage (candidatesByStage (paginatedCandidates page w)) over_id = Some s →
     handleDragEnd env page active (Some over_id) w = (None, setActiveId None w)
     ∧ untouched w (handleDragEnd env page active (Some over_id) w).2)
  ∧ (∀ active over_id c o s,
       unique_ids (filteredCandidates w) → ¬ is_stage over_id →
       c ∈ column (candidatesByStage (paginatedCandidates page w)) s →
       o ∈ column (candidatesByStage (paginatedCandidates page w)) s →
       is_str (c !! "id") active → is_str (o !! "id") over_id →
       handleDragEnd env page active (Some over_id) w = (None, setActiveId None w)
       ∧ untouched w (handleDragEnd env page active (Some over_id) w).2)
  ∧ (∀ candidatesData candidateId stage c,
       find_candidate candidatesData candidateId = Some c → at_stage stage c →
       handleStageDrop env candidatesData candidateId stage w = (None, w)
       ∧ untouched w (handleStageDrop env candidatesData candidateId stage w).2).
Proof.
  assert (∀ active over_id c s,
     find_candidate (filteredCandidates w) active = Some c → at_stage s c →
     newStage (candidatesByStage (paginatedCandidates page w)) over_id = Some s →
     handleDragEnd env page active (Some over_id) w = (None, setActiveId None w)
     ∧ untouched w (handleDragEnd env page active (Some over_id) w).2) as Hsame.
  { intros active over_id c s Hfind Hat Hnew.
    assert (handleDragEnd env page active (Some over_id) w = (None, setActiveId None w))
      as ->; [|by split].
    unfold handleDragEnd. rewrite Hfind, Hnew. by rewrite decide_True. }
  split; [exact Hsame|]. split.
  - intros active over_id c o s Hu Hns Hc Ho Hcid Hoid.
    pose proof Hc as [Hs [Hat Hcin]]%elem_of_column.
    apply (Hsame active over_id c s).
    + apply find_candidate_unique; auto. exact (paginated_subseteq page w c Hcin).
    + done.
    + eapply newStage_of_card; eauto.
      unfold unique_ids in *. eapply sublist_NoDup; [exact Hu|].
      apply fmap_sublist. unfold paginatedCandidates.
      etrans; [apply sublist_take|apply sublist_drop].
  - intros candidatesData candidateId stage c Hfind Hat.
    assert (handleStageDrop env candidatesData candidateId stage w = (None, w))
      as ->; [|by split].
    unfold handleStageDrop. destruct (_ || _); [done|].
    rewrite Hfind. by rewrite decide_True.
Qed.

(** Ann's card dropped on her own column, on Cat's card in the same column,
    and moved to her own stage in the list view. *)
Lemma drop_on_current_stage_is_noop_witness :
  handleDragEnd env_ok 1 "c1" (Some "screen") w_ann = (None, setActiveId None w_ann)
  ∧ handleDragEnd env_ok 1 "c1" (Some "c2") w_col = (None, setActiveId None w_col)
  ∧ handleStageDrop env_ok [ann; bob] "c1" "screen" w_ann = (None, w_ann).
Proof.
  destruct (drop_on_current_stage_is_noop env_ok 1 w_ann) as (Hcol & _ & Hlist).
  destruct (drop_on_current_stage_is_noop env_ok 1 w_col) as (_ & Hcard & _).
  split; [|split].
  - apply (Hcol "c1" "screen" ann "screen"); vm_compute; reflexivity.
  - apply (Hcard "c1" "c2" ann cat "screen"); by_evaluation.
  - apply (Hlist [ann; bob] "c1" "screen" ann); vm_compute; reflexivity.
Defined.

(** C4 (the list view's board does not do what the board does).  Ann and Cat
    are both at [screen].  On the board, dropping Ann's card on Cat's
    resolves to their column and is a no-op.  On the list view's board the
    same gesture hovers Ann's card over Cat's: a card target carries no
    stage, [handleDragOver] passes Cat's id as the new stage, and
    [handleStageDrop] issues [db.candidates.update('c1', { stage: 'c2' })],
    which is stored. *)
Theorem hover_on_card_of_own_column_is_written :
  at_stage "screen" ann ∧ at_stage "screen" cat
  ∧ handleDragEnd env_ok 1 "c1" (Some "c2") w_col = (None, setActiveId None w_col)
  ∧ KanbanBoard_handleDragOver (KanbanBoard_candidatesByStage [ann; cat; bob]) "c1"
      (Some (over_card "c2")) = Some ("c1", "c2")
  ∧ (let '(r, w') := list_board_dragOver env_ok [ann; cat; bob] [ann; cat; bob] "c1"
                       (Some (over_card "c2")) w_col in
     calls w' = [ candidates_update "c1" {[ "stage" := VStr "c2" ]};
                  timeline_add (list_event env_ok "c1" "c2") ]
     ∧ persisted_stage w_col "c1" = Some (VStr "screen")
     ∧ persisted_stage w' "c1" = Some (VStr "c2")).
Proof. vm_compute. repeat split; reflexivity. Qed.

(** ** Overlapping transitions of two candidates *)

Lemma apply_update_proj id changes w :
  timeline (apply_update id changes w) = timeline w
  ∧ cache (apply_update id changes w) = cache w
  ∧ calls (apply_update id changes w) = calls w.
Proof. unfold apply_update. by destruct (candidates w !! id). Qed.

(** The optimistic update shows the new stage on the card it moves ... *)
Lemma find_candidate_with_stage id stage l :
  find_candidate (with_stage id stage <$> l) id
  = <["stage" := VStr stage]> <$> find_candidate l id.
Proof.
  unfold find_candidate. induction l as [|c l IH]; [done|].
  rewrite fmap_cons, !filter_cons.
  destruct (decide (is_str (c !! "id") id)) as [Hc|Hc].
  - rewrite decide_True by (unfold is_str in *; by rewrite with_stage_id).
    cbn. unfold with_stage. by rewrite decide_True.
  - rewrite decide_False by (unfold is_str in *; by rewrite with_stage_id).
    exact IH.
Qed.

(** ... and leaves the cards of all other candidates as they were. *)
Lemma find_candidate_with_stage_other a b stage l :
  a ≠ b → find_candidate (with_stage a stage <$> l) b = find_candidate l b.
Proof.
  intros Hne. unfold find_candidate. induction l as [|c l IH]; [done|].
  rewrite fmap_cons, !filter_cons.
  destruct (decide (is_str (c !! "id") b)) as [Hc|Hc].
  - rewrite decide_True by (unfold is_str in *; by rewrite with_stage_id).
    cbn. by rewrite (with_stage_other a b stage c).
  - rewrite decide_False by (unfold is_str in *; by rewrite with_stage_id).
    exact IH.
Qed.

(** *** The query function *)








(** *** The steps of the event loop, read at what the statements need *)












(** ** The shapes of the timeline records *)

Lemma patch2_event_id env id updates :
  patch2_event env id updates !! "id" = Some (VStr id).
Proof. unfold patch2_event. cbn. by simplify_map_eq. Qed.

(** The second registration with a truthy [stage], step by step. *)
Lemma patch_candidate_2_stage env id updates w :
  truthy (updates !! "stage") = true →
  fault env CandidatesUpdate = None → fault env TimelineAdd = None →
  match timeline w !! id with
  | Some _ =>
      ∃ w', patch_candidate_2 env id updates w
            = (inl (Error "ConstraintError" (idb_message env "ConstraintError")), w')
            ∧ candidates w' = candidates (apply_update id updates w)
            ∧ timeline w' = timeline w
  | None =>
      ∃ r w', patch_candidate_2 env id updates w = (r, w')
              ∧ candidates w' = candidates (apply_update id updates w)
              ∧ timeline w' = <[id := patch2_event env id updates]> (timeline w)
              ∧ (fault env CandidatesGet = None →
                 r = inr (Json (candidates (apply_update id updates w) !! id) 200))
  end.
Proof.
  intros Hst Hup Hadd.
  unfold patch_candidate_2, simulateNetwork, db_candidates_get, db_candidates_update,
    db_timeline_add, store_op. unfold_M. cbn -[patch2_event].
  rewrite Hup, Hst. cbn -[patch2_event]. rewrite Hadd. cbn -[patch2_event].
  rewrite patch2_event_id. cbn -[patch2_event].
  assert (timeline (apply_update id updates
                      (log_call (candidates_update id updates) w)) = timeline w) as Htl0
    by (unfold apply_update; cbn; by destruct (candidates w !! id)).
  rewrite Htl0.
  destruct (timeline w !! id) as [ev|] eqn:Hev; cbn -[patch2_event].
  - eexists. split; [done|]. cbn. split; [|done].
    unfold apply_update. cbn. by destruct (candidates w !! id).
  - assert (∀ w0, candidates w0 = candidates w →
              candidates (apply_update id updates w0)
              = candidates (apply_update id updates w)) as Hcand.
    { intros w0 H0. unfold apply_update. rewrite H0.
      by destruct (candidates w !! id). }
    destruct (fault env CandidatesGet) as [e|]; cbn -[patch2_event].
    + do 2 eexists. split; [done|]. cbn -[patch2_event].
      split; [by apply Hcand|]. split; [done|]. discriminate.
    + do 2 eexists. split; [done|]. cbn -[patch2_event].
      split; [by apply Hcand|]. split; [done|]. intros _.
      do 2 f_equal. cbn.
      by rewrite (Hcand (log_call (candidates_update id updates) w) eq_refl).
Qed.

(** C9, as the specification words it, does not hold: the record with
    epoch milliseconds is built by the list view and handed to
    [db.timeline.add], but it has no [id] and the table rejects it, so no
    record of that shape is ever in the store. *)
Lemma list_view_event_is_not_stored :
  let '(r, w') := handleStageDrop env_ok [ann; bob] "c1" "offer" w_ann in
  timeline_add (list_event env_ok "c1" "offer") ∈ calls w'
  ∧ list_event env_ok "c1" "offer" !! "timestamp" = Some (VNum (now_ms env_ok))
  ∧ r = Some (inl (Error "DataError" "DataError"))
  ∧ timeline w' = ∅
  ∧ ¬ (∃ k ev, timeline w' !! k = Some ev ∧ ev !! "timestamp" = Some (VNum (now_ms env_ok))).
Proof.
  vm_compute. repeat split; try reflexivity.
  - apply list_elem_of_further, list_elem_of_here.
  - intros (k & ev & Hk & _). discriminate Hk.
Qed.

(** C9 (amended): the timeline-writing call sites build records of
    different shapes, and the two PATCH handlers store records of different
    shapes.  The first PATCH handler stores, under a fresh UUID, an event
    with both [title] and [description] and an ISO-8601 string as
    [timestamp]; the second one stores, under the candidate's id, an event
    with a [description] but no [title], and an ISO-8601 string too.  The
    list view's mutation builds an event with a [description] but no
    [title], and epoch milliseconds (a number) as [timestamp], and hands it
    to [db.timeline.add]. *)
Theorem timeline_record_shapes_differ env id candidate updates stage w :
  let e_patch := patch_event env id candidate updates in
  let e_list := list_event env id stage in
  let e_patch2 := patch2_event env id updates in
  (∀ resp w',
     patch_candidate env id updates w = (inr resp, w') → status resp = 200 →
     candidates w !! id = Some candidate → stage_changes updates candidate = true →
     timeline w !! uuid env = None ∧ timeline w' !! uuid env = Some e_patch)
  ∧ (is_Some (e_patch !! "title") ∧ is_Some (e_patch !! "description")
     ∧ e_patch !! "timestamp" = Some (VStr (now_iso env 1)))
  ∧ (truthy (updates !! "stage") = true →
     fault env CandidatesUpdate = None → fault env TimelineAdd = None →
     timeline w !! id = None →
     timeline (patch_candidate_2 env id updates w).2 !! id = Some e_patch2)
  ∧ (e_patch2 !! "title" = None ∧ is_Some (e_patch2 !! "description")
     ∧ e_patch2 !! "timestamp" = Some (VStr (now_iso env 0)))
  ∧ dom e_patch ≠ dom e_patch2
  ∧ (e_list !! "title" = None ∧ is_Some (e_list !! "description")
     ∧ e_list !! "timestamp" = Some (VNum (now_ms env)))
  ∧ dom e_patch ≠ dom e_list
  ∧ e_patch !! "timestamp" ≠ e_list !! "timestamp"
  ∧ (fault env CandidatesUpdate = None →
     timeline_add e_list ∈ calls (list_mutationFn env id stage w).2).
Proof.
  cbn zeta.
  assert ("title" ∈ dom (patch_event env id candidate updates)) as Htitle.
  { apply elem_of_dom. unfold patch_event. cbn. by simplify_map_eq. }
  split; [|split; [|split; [|split; [|split; [|split; [|split; [|split]]]]]]].
  - intros resp w' Hrun Hst Hc Hsc.
    destruct (patch_candidate_200 _ _ _ _ _ _ Hrun Hst) as (c & Hc' & _ & _ & _ & Htl).
    rewrite Hc in Hc'. injection Hc' as <-. rewrite Hsc in Htl.
    destruct Htl as [Hfresh ->]. split; [done|]. by rewrite lookup_insert_eq.
  - unfold patch_event. cbn. repeat split; by simplify_map_eq.
  - intros Hst Hup Hadd Hfree.
    pose proof (patch_candidate_2_stage env id updates w Hst Hup Hadd) as H.
    rewrite Hfree in H. destruct H as (r & w' & Hrun & _ & Htl & _).
    rewrite Hrun. cbn. by rewrite Htl, lookup_insert_eq.
  - unfold patch2_event. cbn. repeat split; by simplify_map_eq.
  - intros Hdom. rewrite Hdom in Htitle. apply elem_of_dom in Htitle as [v Hv].
    unfold patch2_event in Hv. cbn in Hv. by simplify_map_eq.
  - unfold list_event. cbn. repeat split; by simplify_map_eq.
  - intros Hdom. rewrite Hdom in Htitle. apply elem_of_dom in Htitle as [v Hv].
    unfold list_event in Hv. cbn in Hv. by simplify_map_eq.
  - unfold patch_event, list_event. cbn. by simplify_map_eq.
  - intros Hup.
    unfold list_mutationFn, db_candidates_update, db_timeline_add, store_op.
    unfold_M. rewrite Hup. cbn -[list_event].
    assert (calls (apply_update id {[ "stage" := VStr stage ]}
                     (log_call (candidates_update id {[ "stage" := VStr stage ]}) w))
            = calls w ++ [candidates_update id {[ "stage" := VStr stage ]}]) as Hcalls.
    { by rewrite (proj2 (proj2 (apply_update_proj _ _ _))). }
    destruct (fault env TimelineAdd); cbn -[list_event].
    { rewrite Hcalls. set_solver. }
    assert (list_event env id stage !! "id" = None) as ->
      by (unfold list_event; cbn; by simplify_map_eq).
    cbn -[list_event]. rewrite Hcalls. set_solver.
Qed.

(** Ann moved to [offer] through the two PATCH handlers and through the list. *)
Lemma timeline_record_shapes_differ_witness :
  timeline (patch_candidate env_ok "c1" {[ "stage" := VStr "offer" ]} w_ann).2
    !! uuid env_ok
  = Some (patch_event env_ok "c1" ann {[ "stage" := VStr "offer" ]})
  ∧ timeline (patch_candidate_2 env_ok "c1" {[ "stage" := VStr "offer" ]} w_ann).2 !! "c1"
    = Some (patch2_event env_ok "c1" {[ "stage" := VStr "offer" ]})
  ∧ timeline_add (list_event env_ok "c1" "offer")
    ∈ calls (list_mutationFn env_ok "c1" "offer" w_ann).2.
Proof.
  destruct (timeline_record_shapes_differ env_ok "c1" ann {[ "stage" := VStr "offer" ]}
              "offer" w_ann) as (Hpatch & _ & Hpatch2 & _ & _ & _ & _ & _ & Hlist).
  split; [|split].
  - refine (proj2 (Hpatch (Json (Some (updatedCandidate env_ok ann
                                         {[ "stage" := VStr "offer" ]})) 200)
                     (patch_candidate env_ok "c1" {[ "stage" := VStr "offer" ]} w_ann).2
                     _ _ _ _)).
    + vm_compute. reflexivity.
    + reflexivity.
    + vm_compute. reflexivity.
    + vm_compute. reflexivity.
  - apply Hpatch2; vm_compute; reflexivity.
  - apply Hlist. reflexivity.
Defined.

(** * Further properties of the code *)

(** ** Paging *)

Lemma pages_concat {A} (l : list A) (k n : nat) :
  concat ((λ p, take k (drop ((p - 1) * k) l)) <$> seq 1 n) = take (n * k) l.
Proof.
  induction n as [|n IH]; [done|].
  rewrite seq_S, fmap_app, concat_app, IH. cbn.
  rewrite app_nil_r, Nat.sub_0_r, take_take_drop. f_equal. lia.
Qed.

(** X1: the pages of the board partition the fetched list: read one after
    the other, pages 1 to n give back the list, in order, as soon as n pages
    can hold it; no page has more than [pageSize] cards and the pages after
    the n-th are empty. *)
Theorem pages_partition (w : World) (n : nat) :
  (length (filteredCandidates w) ≤ n * pageSize)%nat →
  concat ((λ p, paginatedCandidates p w) <$> seq 1 n) = filteredCandidates w
  ∧ (∀ p, (length (paginatedCandidates p w) ≤ pageSize)%nat)
  ∧ (∀ p, (n < p)%nat → paginatedCandidates p w = []).
Proof.
  intros Hn. unfold paginatedCandidates. split; [|split].
  - rewrite (pages_concat (filteredCandidates w) pageSize n). by apply take_ge.
  - intros p. rewrite length_take. lia.
  - intros p Hp. rewrite drop_ge; [apply take_nil|]. nia.
Qed.

Lemma pages_partition_witness :
  concat ((λ p, paginatedCandidates p w_col) <$> seq 1 1) = [ann; cat; bob].
Proof.
  destruct (pages_partition w_col 1) as [H _].
  - vm_compute. lia.
  - exact H.
Defined.

(** X2: starting from page 1, no sequence of clicks on Previous and Next
    leaves the range of pages: the page number is at least 1 and, beyond
    page 1, the page starts inside the list.  So the page shown is never
    empty when the list is not. *)
Theorem paging_stays_in_range (w : World) (cs : list Click) :
  let len := length (filteredCandidates w) in
  (1 ≤ page_after len cs)%nat
  ∧ (page_after len cs = 1 ∨ ((page_after len cs - 1) * pageSize < len)%nat)
  ∧ (filteredCandidates w ≠ [] → paginatedCandidates (page_after len cs) w ≠ []).
Proof.
  cbn zeta. set (len := length (filteredCandidates w)).
  assert (∀ p0, (1 ≤ p0)%nat ∧ (p0 = 1 ∨ ((p0 - 1) * pageSize < len)%nat) →
                (1 ≤ foldl (click len) p0 cs)%nat
                ∧ (foldl (click len) p0 cs = 1
                   ∨ ((foldl (click len) p0 cs - 1) * pageSize < len)%nat)) as Hinv.
  { induction cs as [|c cs IH]; intros p0 Hp0; [done|].
    cbn [foldl]. apply IH. destruct c; cbn [click].
    - unfold previousPage. unfold pageSize in *. lia.
    - unfold nextPage. destruct (Nat.ltb_spec (p0 * pageSize) len) as [Hlt|Hge].
      + split; [lia|]. right. replace (p0 + 1 - 1) with p0 by lia. done.
      + done. }
  destruct (Hinv 1) as [H1 H2]; [lia|]. fold (page_after len cs) in H1, H2.
  split; [done|]. split; [done|].
  intros Hne. unfold paginatedCandidates.
  assert (0 < len)%nat as Hlen.
  { subst len. destruct (filteredCandidates w); [done|cbn; lia]. }
  assert ((page_after len cs - 1) * pageSize < len)%nat as Hstart.
  { destruct H2 as [H2|H2]; [|done]. rewrite H2. unfold pageSize. lia. }
  intros [Hnil|Hnil]%take_nil_inv; [discriminate Hnil|].
  assert (length (drop ((page_after len cs - 1) * pageSize) (filteredCandidates w)) = 0)
    as Hlen0 by (by rewrite Hnil).
  rewrite length_drop in Hlen0. fold len in Hlen0. lia.
Qed.

Lemma paging_stays_in_range_witness :
  paginatedCandidates (page_after 3 [Next; Next; Previous; Next]) w_col ≠ [].
Proof.
  destruct (paging_stays_in_range w_col [Next; Next; Previous; Next]) as (_ & _ & H).
  apply H. discriminate.
Defined.

(** ** What a drop on the board can write *)

Lemma newStage_is_stage g over_id s : newStage g over_id = Some s → is_stage s.
Proof.
  unfold newStage. case_decide as Hs.
  - by intros [= <-].
  - destruct (head (filter _ STAGES)) as [st|] eqn:Hh; [|done].
    intros [= <-]. apply head_Some_elem_of, list_elem_of_filter in Hh as [_ Hst].
    unfold is_stage, allStages. by apply list_elem_of_fmap_2.
Qed.

(** X3: whatever is dropped wherever, [handleDragEnd] issues at most one
    store call, and that call is [db.candidates.update(id, { stage })] for
    the dragged card with a stage of the registry: the board never stores a
    stage outside the registry, never writes another property and never
    writes the timeline.  When it starts no mutation it changes nothing but
    [activeId]. *)
Theorem board_drop_writes_registry_stage_only env page active over w r w' :
  handleDragEnd env page active over w = (r, w') →
  timeline w' = timeline w ∧ activeId w' = None
  ∧ match r with
    | None => w' = setActiveId None w
    | Some m =>
        m_id m = active ∧ is_stage (m_stage m) ∧ over ≠ None
        ∧ calls w' = calls w ++ [candidates_update active {[ "stage" := VStr (m_stage m) ]}]
        ∧ (candidates w' = candidates w
           ∨ candidates w'
             = candidates (apply_update active {[ "stage" := VStr (m_stage m) ]} w))
    end.
Proof.
  unfold handleDragEnd. destruct over as [over_id|]; [|by intros [= <- <-]].
  destruct (find_candidate (filteredCandidates w) active) as [c|] eqn:Hfind;
    [|by intros [= <- <-]].
  destruct (newStage _ over_id) as [stage|] eqn:Hnew; [|by intros [= <- <-]].
  case_decide; [by intros [= <- <-]|].
  destruct (String.eqb stage ""); [by intros [= <- <-]|].
  destruct (updateCandidateStage env active stage (setActiveId None w)) as [m w1] eqn:Hrun.
  intros [= <- <-].
  apply updateCandidateStage_cases in Hrun as (Hid & Hst & Htl & Hact & Hcase).
  cbn in Htl, Hact, Hcase.
  assert (cache w ≠ None) as Hc.
  { unfold find_candidate, filteredCandidates in Hfind. by destruct (cache w). }
  destruct (cache w) as [l|]; [|done].
  destruct Hcase as (_ & Hcalls & Hcase). rewrite Hst, Hid.
  repeat split; try done.
  - by eapply newStage_is_stage.
  - destruct (fault env CandidatesUpdate).
    + left. by destruct Hcase as (_ & _ & ->).
    + right. destruct Hcase as (_ & _ & ->). unfold apply_update. cbn.
      by destruct (candidates w !! active).
Qed.

Lemma board_drop_writes_registry_stage_only_witness :
  calls (handleDragEnd env_ok 1 "c1" (Some "offer") w_ann).2
  = [candidates_update "c1" {[ "stage" := VStr "offer" ]}].
Proof.
  destruct (handleDragEnd env_ok 1 "c1" (Some "offer") w_ann) as [r w'] eqn:Hrun.
  destruct (board_drop_writes_registry_stage_only _ _ _ _ _ _ _ Hrun) as (_ & _ & H).
  assert (r = Some (updateCandidateStage env_ok "c1" "offer" (setActiveId None w_ann)).1)
    as Hr by (vm_compute in Hrun; by injection Hrun as <- _).
  rewrite Hr in H. destruct H as (_ & _ & _ & Hcalls & _). exact Hcalls.
Defined.

(** X4: a card of the cached list, dropped on the column of another stage of
    the registry, with a store that accepts the update: exactly one store
    call is issued, the stored and the cached stage of the candidate are the
    new stage, the timeline is as before, and on every page of the board
    rebuilt from the cache a card with that id sits in the column of the new
    stage and in no other. *)
Theorem board_drop_moves_card env page active stage w c p :
  find_candidate (filteredCandidates w) active = Some c →
  candidates w !! active = Some p →
  is_stage stage → ¬ at_stage stage c →
  fault env CandidatesUpdate = None →
  let w' := (handleDragEnd env page active (Some stage) w).2 in
  calls w' = calls w ++ [candidates_update active {[ "stage" := VStr stage ]}]
  ∧ persisted_stage w' active = Some (VStr stage)
  ∧ cached_stage w' active = Some (VStr stage)
  ∧ timeline w' = timeline w
  ∧ (∀ page' s card,
       card ∈ column (candidatesByStage (paginatedCandidates page' w')) s →
       is_str (card !! "id") active → s = stage).
Proof.
  intros Hfind Hp Hs Hat Hf. cbn zeta.
  assert (∃ l, cache w = Some l) as [l Hc].
  { unfold find_candidate, filteredCandidates in Hfind.
    destruct (cache w) as [l|]; [eauto|done]. }
  assert (stage ≠ "") as Hne.
  { intros ->. apply is_stage_cases in Hs.
    destruct Hs as [?|[?|[?|[?|[?|?]]]]]; discriminate. }
  unfold handleDragEnd. rewrite Hfind.
  unfold newStage. rewrite decide_True by done.
  rewrite decide_False by done.
  apply String.eqb_neq in Hne. rewrite Hne.
  destruct (updateCandidateStage env active stage (setActiveId None w)) as [m w1] eqn:Hrun.
  cbn [snd].
  apply updateCandidateStage_cases in Hrun as (_ & _ & Htl & _ & Hcase).
  cbn in Htl, Hcase. rewrite Hc, Hf in Hcase.
  destruct Hcase as (_ & Hcalls & _ & Hcache & Hdb).
  split; [done|]. split; [|split; [|split; [done|]]].
  - unfold persisted_stage. rewrite Hdb. unfold apply_update. cbn. rewrite Hp. cbn.
    rewrite lookup_insert_eq. cbn. rewrite spread_stage. by rewrite lookup_insert_eq.
  - unfold cached_stage, filteredCandidates. rewrite Hcache. cbn.
    unfold filteredCandidates in Hfind. rewrite Hc in Hfind. cbn in Hfind.
    rewrite find_candidate_with_stage, Hfind. cbn. by rewrite lookup_insert_eq.
  - intros page' s card [_ [Hcat Hin]]%elem_of_column Hid.
    apply paginated_subseteq in Hin. unfold filteredCandidates in Hin.
    rewrite Hcache in Hin. cbn in Hin.
    apply list_elem_of_fmap in Hin as (c0 & -> & _).
    unfold is_str in Hid. rewrite with_stage_id in Hid.
    unfold with_stage in Hcat. rewrite decide_True in Hcat by done.
    unfold at_stage, is_str in Hcat. rewrite lookup_insert_eq in Hcat. congruence.
Qed.

(** Ann's card dropped on the column [offer]. *)
Lemma board_drop_moves_card_witness :
  persisted_stage (handleDragEnd env_ok 1 "c1" (Some "offer") w_ann).2 "c1"
  = Some (VStr "offer")
  ∧ cached_stage (handleDragEnd env_ok 1 "c1" (Some "offer") w_ann).2 "c1"
    = Some (VStr "offer").
Proof.
  destruct (board_drop_moves_card env_ok 1 "c1" "offer" w_ann ann ann)
    as (_ & Hp & Hc & _).
  - vm_compute. reflexivity.
  - vm_compute. reflexivity.
  - by_evaluation.
  - by_evaluation.
  - reflexivity.
  - split; [exact Hp|exact Hc].
Defined.

(** ** The list view's board *)

Lemma forEach_groups_lookup (cs : list obj) (ss : list (string * string * string))
    (acc : gmap string (list obj)) (s : string) :
  foldl (λ groups stage, <[stage.1.1 := filter (at_stage stage.1.1) cs]> groups) acc ss !! s
  = if decide (s ∈ ss.*1.*1) then Some (filter (at_stage s) cs) else acc !! s.
Proof.
  revert acc. induction ss as [|st ss IH]; intros acc; cbn [foldl fmap list_fmap].
  - rewrite decide_False; [done|]. apply not_elem_of_nil.
  - rewrite IH. destruct (decide (s ∈ ss.*1.*1)) as [Hin|Hout].
    + rewrite decide_True; [done|]. by apply elem_of_cons; right.
    + destruct (decide (s = st.1.1)) as [->|Hne].
      * rewrite lookup_insert_eq, decide_True; [done|]. by apply elem_of_cons; left.
      * rewrite lookup_insert_ne by done. rewrite decide_False; [done|].
        rewrite elem_of_cons. tauto.
Qed.

(** The two groupings, key by key. *)
Lemma KanbanBoard_groups_lookup (cs : list obj) (s : string) :
  KanbanBoard_candidatesByStage cs !! s = candidatesByStage cs !! s.
Proof.
  unfold KanbanBoard_candidatesByStage.
  rewrite (forEach_groups_lookup cs CandidateCard_STAGES ∅ s), lookup_empty.
  rewrite (candidatesByStage_lookup cs s).
  change (CandidateCard_STAGES.*1.*1) with allStages.
  destruct (decide (is_stage s)) as [Hs|Hs]; unfold is_stage in Hs.
  - by rewrite decide_True.
  - by rewrite decide_False.
Qed.

(** X5: the two boards group alike: on every list of candidates the
    [candidatesByStage] of KanbanBoard ([forEach] into an empty object) and
    the one of CandidatesKanban ([reduce], then a pass filling missing
    keys) build the same object. *)
Theorem boards_group_alike (cs : list obj) :
  KanbanBoard_candidatesByStage cs = candidatesByStage cs.
Proof.
  apply map_eq. intros s. apply KanbanBoard_groups_lookup.
Qed.

(** The column that holds the dragged card, ids being unique. *)
Lemma activeStage_of_card cs activeId c s :
  unique_ids cs → c ∈ cs → is_str (c !! "id") activeId → is_stage s → at_stage s c →
  activeStage (KanbanBoard_candidatesByStage cs) activeId = Some s.
Proof.
  intros Hu Hc Hid Hs Hat.
  rewrite (map_eq _ _ (KanbanBoard_groups_lookup cs)). unfold activeStage.
  change (CandidateCard_STAGES.*1.*1) with allStages.
  assert (∀ s', Exists (λ item : obj, is_str (item !! "id") activeId)
                  (column (candidatesByStage cs) s') → s' = s) as Honly.
  { intros s' (card & [_ [Hat' Hcard]]%elem_of_column & Hcid)%Exists_exists.
    assert (card = c) as ->.
    { apply (unique_ids_eq cs); auto. unfold is_str in *. congruence. }
    unfold at_stage, is_str in *. congruence. }
  destruct (head (filter _ allStages)) as [s'|] eqn:Hh.
  - apply head_Some_elem_of, list_elem_of_filter in Hh as [Hcard _].
    f_equal. by apply Honly.
  - apply head_None in Hh. exfalso.
    assert (s ∈ filter (λ s0, Exists (λ item : obj, is_str (item !! "id") activeId)
                                (column (candidatesByStage cs) s0)) allStages) as Hin.
    { apply list_elem_of_filter. split; [|done].
      apply Exists_exists. exists c. split; [|done]. by apply elem_of_column. }
    rewrite Hh in Hin. by apply elem_of_nil in Hin.
Qed.

(** X6: on the list view's board, hovering moves nothing when there is no
    target, when the target is the dragged card itself, or when it is the
    column the dragged card is in (candidate ids being unique):
    [onCandidateMove] is not called, so no store call is issued. *)
Theorem board_hover_own_column_moves_nothing env candidatesData boardCandidates activeId w :
  list_board_dragOver env candidatesData boardCandidates activeId None w = (None, w)
  ∧ (∀ stage_id,
       list_board_dragOver env candidatesData boardCandidates activeId
         (Some {| over_id := activeId; over_stage_id := stage_id |}) w = (None, w))
  ∧ (∀ c s,
       unique_ids boardCandidates → c ∈ boardCandidates →
       is_str (c !! "id") activeId → is_stage s → at_stage s c →
       list_board_dragOver env candidatesData boardCandidates activeId
         (Some (over_column s)) w = (None, w)).
Proof.
  unfold list_board_dragOver, KanbanBoard_handleDragOver. split; [done|]. split.
  - intros stage_id. cbn. by rewrite decide_True.
  - intros c s Hu Hc Hid Hs Hat.
    assert (s ≠ "") as Hne.
    { intros ->. apply is_stage_cases in Hs.
      destruct Hs as [?|[?|[?|[?|[?|?]]]]]; discriminate. }
    assert (overStage (over_column s) = s) as Hover.
    { unfold overStage, over_column. cbn. apply String.eqb_neq in Hne. by rewrite Hne. }
    rewrite Hover, (activeStage_of_card boardCandidates activeId c s) by done.
    cbn. case_decide; [done|]. by rewrite decide_True.
Qed.

Lemma board_hover_own_column_moves_nothing_witness :
  list_board_dragOver env_ok [ann; bob] [ann; bob] "c1" (Some (over_column "screen")) w_ann
  = (None, w_ann).
Proof.
  destruct (board_hover_own_column_moves_nothing env_ok [ann; bob] [ann; bob] "c1" w_ann)
    as (_ & _ & H).
  apply (H ann "screen"); by_evaluation.
Defined.

Lemma activeStage_is_stage groups activeId s :
  activeStage groups activeId = Some s → is_stage s.
Proof.
  unfold activeStage. intros [_ Hs]%head_Some_elem_of%list_elem_of_filter. exact Hs.
Qed.

(** X7: on the list view's board a card target carries no stage, so
    hovering a card over the card of another candidate passes that card's
    id to [handleStageDrop] as the new stage.  For a dragged candidate at a
    registry stage, and card ids that are not stage names, the update is
    issued and accepted: the stored stage of the dragged candidate becomes
    the other card's id, a value outside the registry, while the mutation is
    rejected at the timeline and no event is stored. *)
Theorem board_hover_card_stores_card_id
    env candidatesData boardCandidates activeId card_id w c p :
  activeId ≠ card_id → activeId ≠ "" → card_id ≠ "" → ¬ is_stage card_id →
  find_candidate candidatesData activeId = Some c → staged c →
  candidates w !! activeId = Some p →
  fault env CandidatesUpdate = None →
  let '(r, w') := list_board_dragOver env candidatesData boardCandidates activeId
                    (Some (over_card card_id)) w in
  (∃ e, r = Some (inl e))
  ∧ persisted_stage w' activeId = Some (VStr card_id)
  ∧ (∀ v, persisted_stage w' activeId = Some (VStr v) → ¬ is_stage v)
  ∧ timeline w' = timeline w.
Proof.
  intros Hne Ha Hc Hns Hfind (s & Hs & Hat) Hp Hf.
  unfold list_board_dragOver, KanbanBoard_handleDragOver.
  change (overStage (over_card card_id)) with card_id.
  change (over_id (over_card card_id)) with card_id.
  rewrite decide_False by done.
  rewrite decide_False.
  2:{ intros Hact. apply activeStage_is_stage in Hact. done. }
  unfold handleStageDrop.
  apply String.eqb_neq in Ha, Hc. rewrite Ha, Hc. cbn [orb].
  rewrite Hfind. rewrite decide_False.
  2:{ intros Hat'. unfold at_stage, is_str in *. rewrite Hat in Hat'.
      injection Hat' as <-. done. }
  destruct (list_mutationFn_rejects env activeId card_id w)
    as (e & w1 & -> & Htl & _ & _ & Hdb).
  rewrite Hf in Hdb.
  assert (persisted_stage (list_onError w1) activeId = Some (VStr card_id)) as Hps.
  { unfold persisted_stage. cbn. rewrite Hdb. unfold apply_update. rewrite Hp. cbn.
    rewrite lookup_insert_eq. cbn. rewrite spread_stage. by rewrite lookup_insert_eq. }
  split; [eauto|]. split; [exact Hps|]. split; [|done].
  intros v Hv. rewrite Hps in Hv. by injection Hv as <-.
Qed.

(** Ann's card ([screen]) hovered over Cat's card in the same column. *)
Lemma board_hover_card_stores_card_id_witness :
  persisted_stage
    (list_board_dragOver env_ok [ann; cat; bob] [ann; cat; bob] "c1"
       (Some (over_card "c2")) w_col).2 "c1"
  = Some (VStr "c2").
Proof.
  pose proof (board_hover_card_stores_card_id env_ok [ann; cat; bob] [ann; cat; bob]
                "c1" "c2" w_col ann ann) as H.
  destruct (list_board_dragOver env_ok [ann; cat; bob] [ann; cat; bob] "c1"
              (Some (over_card "c2")) w_col) as [r w'].
  destruct H as (_ & Hps & _); try by_evaluation; try (vm_compute; reflexivity).
  exact Hps.
Defined.

(** ** More on the PATCH handlers *)










(** X12: the second registration never looks the candidate up before it
    writes.  For an id that no candidate has, a PATCH with a truthy [stage]
    stores no candidate but adds a [stage_change] event for that id, and is
    answered 200 with an empty body. *)
Theorem patch2_unknown_id_adds_orphan_event env id updates w :
  candidates w !! id = None → timeline w !! id = None →
  truthy (updates !! "stage") = true →
  fault env CandidatesUpdate = None → fault env TimelineAdd = None →
  fault env CandidatesGet = None →
  ∃ w', patch_candidate_2 env id updates w = (inr (Json None 200), w')
        ∧ candidates w' = candidates w
        ∧ timeline w' = <[id := patch2_event env id updates]> (timeline w)
        ∧ patch2_event env id updates !! "candidateId" = Some (VStr id)
        ∧ patch2_event env id updates !! "type" = Some (VStr "stage_change").
Proof.
  intros Hc Hev Hs Hu Ha Hg.
  pose proof (patch_candidate_2_stage env id updates w Hs Hu Ha) as H.
  rewrite Hev in H. destruct H as (r & w' & Hrun & Hdb & Htl & Hr).
  assert (apply_update id updates w = w) as Hid
    by (unfold apply_update; by rewrite Hc).
  rewrite Hid in Hdb, Hr. rewrite Hc in Hr.
  exists w'. rewrite Hrun, (Hr Hg). by repeat split.
Qed.

Lemma patch2_unknown_id_adds_orphan_event_witness :
  ∃ w', patch_candidate_2 env_ok "nobody" {[ "stage" := VStr "offer" ]} w_ann
        = (inr (Json None 200), w')
        ∧ size (timeline w') = 1.
Proof.
  destruct (patch2_unknown_id_adds_orphan_event env_ok "nobody"
              {[ "stage" := VStr "offer" ]} w_ann)
    as (w' & Hrun & _ & Htl & _); try (vm_compute; reflexivity).
  exists w'. split; [exact Hrun|]. rewrite Htl. vm_compute. reflexivity.
Defined.

(** ** Reordering of jobs, the progress bar and the candidates hook *)

Ltac unfold_J :=
  unfold mbind, J_bind, mret, J_ret, jobs_gets, jobs_modify, jobs_throw, jobs_try_catch,
    jobs_op in *.

Lemma spread_order (j : obj) (o : Z) :
  spread j {[ "order" := VNum o ]} = <["order" := VNum o]> j.
Proof. unfold spread. by rewrite insert_union_singleton_l. Qed.

Lemma job_order_insert (j : obj) (o : Z) :
  job_order (<["order" := VNum o]> j) = Some o.
Proof. unfold job_order. by rewrite lookup_insert_eq. Qed.

Lemma jobs_update_lookup_ne k k' c (t : gmap string obj) :
  k ≠ k' → jobs_apply_update k' c t !! k = t !! k.
Proof.
  intros Hne. unfold jobs_apply_update. destruct (t !! k') eqn:Hk'; [|done].
  by rewrite lookup_insert_ne.
Qed.

Lemma jobs_update_lookup_eq k o (t : gmap string obj) :
  jobs_apply_update k {[ "order" := VNum o ]} t !! k
  = <["order" := VNum o]> <$> t !! k.
Proof.
  unfold jobs_apply_update. destruct (t !! k) eqn:Hk; cbn.
  - by rewrite lookup_insert_eq, spread_order.
  - by rewrite Hk.
Qed.

(** The table after a list of order updates, applied one after the other. *)
Lemma apply_updates_run env us t :
  jobs_fault env JobsUpdate = None →
  apply_updates env us t
  = (inr (), foldl (λ t (u : string * Z),
                      jobs_apply_update u.1 {[ "order" := VNum u.2 ]} t) t us).
Proof.
  intros Hup. revert t. induction us as [|u us IH]; intros t; [done|].
  change (apply_updates env (u :: us) t)
    with ((db_jobs_update env u.1 {[ "order" := VNum u.2 ]} ;; apply_updates env us) t).
  unfold db_jobs_update. unfold_J. rewrite Hup. cbn. apply IH.
Qed.

Lemma updates_lookup_notin k us (t : gmap string obj) :
  k ∉ us.*1 →
  foldl (λ t (u : string * Z), jobs_apply_update u.1 {[ "order" := VNum u.2 ]} t) t us !! k
  = t !! k.
Proof.
  revert t. induction us as [|[k' o] us IH]; intros t Hk; [done|].
  cbn in *. apply not_elem_of_cons in Hk as [Hne Hk].
  rewrite IH by done. by apply jobs_update_lookup_ne.
Qed.

Lemma updates_lookup_in k o us (t : gmap string obj) :
  NoDup us.*1 → (k, o) ∈ us →
  foldl (λ t (u : string * Z), jobs_apply_update u.1 {[ "order" := VNum u.2 ]} t) t us !! k
  = <["order" := VNum o]> <$> t !! k.
Proof.
  revert t. induction us as [|[k' o'] us IH]; intros t Hnd Hin.
  { by apply elem_of_nil in Hin. }
  cbn in *. apply NoDup_cons in Hnd as [Hk' Hnd].
  apply elem_of_cons in Hin as [[= <- <-]|Hin].
  - rewrite updates_lookup_notin by done. apply jobs_update_lookup_eq.
  - rewrite IH by done. rewrite jobs_update_lookup_ne; [done|].
    intros ->. apply Hk'. apply list_elem_of_fmap. by exists (k', o).
Qed.

(** The array [orderBy('order').toArray()] resolves to. *)
Lemma ordered_jobs_elem (t : gmap string obj) k j :
  (k, j) ∈ merge_sort order_le
             (filter (λ kj : string * obj, is_Some (job_order kj.2)) (map_to_list t))
  ↔ t !! k = Some j ∧ is_Some (job_order j).
Proof.
  rewrite merge_sort_Permutation, list_elem_of_filter, elem_of_map_to_list. cbn. tauto.
Qed.

Lemma ordered_jobs_NoDup (t : gmap string obj) :
  NoDup (merge_sort order_le
           (filter (λ kj : string * obj, is_Some (job_order kj.2)) (map_to_list t))).*1.
Proof.
  rewrite merge_sort_Permutation.
  eapply sublist_NoDup; [apply (NoDup_fst_map_to_list t)|].
  apply fmap_sublist, sublist_filter.
Qed.

(** The updates a [forEach] loop pushes: one for each job whose order
    passes the test [p], under the job's own key. *)
Lemma shift_loop_elem (p : Z → bool) (sh : Z → Z) (l : list (string * obj)) k o' :
  (k, o') ∈ omap (λ j : string * obj,
                   match job_order j.2 with
                   | Some o => if p o then Some (j.1, sh o) else None
                   | None => None
                   end) l
  ↔ ∃ j o, (k, j) ∈ l ∧ job_order j = Some o ∧ p o = true ∧ o' = sh o.
Proof.
  rewrite list_elem_of_omap. split.
  - intros ([k0 j] & Hin & Hf). cbn in Hf.
    destruct (job_order j) as [o|] eqn:Ho; [|done].
    destruct (p o) eqn:Hp; [|done]. injection Hf as -> <-. by exists j, o.
  - intros (j & o & Hin & Ho & Hp & ->). exists (k, j). split; [done|].
    cbn. by rewrite Ho, Hp.
Qed.

Lemma shift_loop_NoDup (p : Z → bool) (sh : Z → Z) (l : list (string * obj)) :
  NoDup l.*1 →
  NoDup (omap (λ j : string * obj,
                 match job_order j.2 with
                 | Some o => if p o then Some (j.1, sh o) else None
                 | None => None
                 end) l).*1.
Proof.
  induction l as [|[k j] l IH]; intros Hnd; [constructor|].
  cbn in *. apply NoDup_cons in Hnd as [Hk Hnd].
  destruct (job_order j) as [o|]; [destruct (p o)|]; cbn; auto.
  apply NoDup_cons. split; [|auto].
  intros Hin. apply Hk. apply list_elem_of_fmap in Hin as ([k' o'] & -> & Hin).
  apply shift_loop_elem in Hin as (j' & _ & Hin & _). cbn.
  apply list_elem_of_fmap. by exists (k', j').
Qed.

(** The table after the updates of one loop and the final update of the
    moved job, read at the orders. *)
Lemma shift_loop_effect (p : Z → bool) (sh : Z → Z) (t : gmap string obj) id fromOrder toOrder :
  numeric_orders t → order_at t id = Some fromOrder → p fromOrder = false →
  ∀ k,
    order_at
      (foldl (λ t (u : string * Z), jobs_apply_update u.1 {[ "order" := VNum u.2 ]} t) t
         (omap (λ j : string * obj,
                  match job_order j.2 with
                  | Some o => if p o then Some (j.1, sh o) else None
                  | None => None
                  end)
               (merge_sort order_le
                  (filter (λ kj : string * obj, is_Some (job_order kj.2)) (map_to_list t)))
          ++ [(id, toOrder)])) k
    = if decide (k = id) then Some toOrder
      else (λ o, if p o then sh o else o) <$> order_at t k.
Proof.
  intros Hnum Hid Hp k.
  set (l := merge_sort _ _). set (us := omap _ l).
  assert (NoDup us.*1) as Hnd by apply shift_loop_NoDup, ordered_jobs_NoDup.
  assert (∀ k o', (k, o') ∈ us ↔
            ∃ j o, t !! k = Some j ∧ job_order j = Some o ∧ p o = true ∧ o' = sh o) as Hus.
  { intros k0 o'. unfold us. rewrite shift_loop_elem. split.
    - intros (j & o & Hin & Ho & Hpo & ->). apply ordered_jobs_elem in Hin as [Hin _].
      by exists j, o.
    - intros (j & o & Hin & Ho & Hpo & ->). exists j, o. split; [|done].
      apply ordered_jobs_elem. split; [done|]. by rewrite Ho. }
  rewrite foldl_app. cbn. unfold order_at in *.
  destruct (t !! id) as [job|] eqn:Hjob; [|done]. cbn in Hid.
  destruct (decide (k = id)) as [->|Hne].
  - rewrite jobs_update_lookup_eq, updates_lookup_notin.
    + rewrite Hjob. cbn. apply job_order_insert.
    + intros Hin. apply list_elem_of_fmap in Hin as ([k' o'] & Heq & Hin). cbn in Heq. subst k'.
      apply Hus in Hin as (j & o & Hj & Ho & Hpo & _). 
      rewrite Hjob in Hj. injection Hj as <-. congruence.
  - rewrite jobs_update_lookup_ne by done.
    destruct (t !! k) as [j|] eqn:Hj; cbn.
    + destruct (Hnum _ _ Hj) as [o Ho]. rewrite Ho. cbn.
      destruct (p o) eqn:Hpo.
      * rewrite (updates_lookup_in k (sh o)); [|done|].
        -- rewrite Hj. cbn. apply job_order_insert.
        -- apply Hus. by exists j, o.
      * rewrite updates_lookup_notin; [by rewrite Hj; cbn|].
        intros Hin. apply list_elem_of_fmap in Hin as ([k' o'] & Heq & Hin). cbn in Heq. subst k'.
        apply Hus in Hin as (j' & o2 & Hj' & Ho2 & Hpo2 & _).
        rewrite Hj in Hj'. injection Hj' as <-. congruence.
    + rewrite updates_lookup_notin; [by rewrite Hj|].
      intros Hin. apply list_elem_of_fmap in Hin as ([k' o'] & Heq & Hin). cbn in Heq. subst k'.
      apply Hus in Hin as (j' & o2 & Hj' & _). congruence.
Qed.

Lemma updates_preserve (t : gmap string obj) us :
  numeric_orders t →
  numeric_orders
    (foldl (λ t (u : string * Z), jobs_apply_update u.1 {[ "order" := VNum u.2 ]} t) t us)
  ∧ ∀ k, is_Some (foldl (λ t (u : string * Z),
                          jobs_apply_update u.1 {[ "order" := VNum u.2 ]} t) t us !! k)
         → is_Some (t !! k).
Proof.
  revert t. induction us as [|[k' o] us IH]; intros t Hnum; [done|].
  cbn. destruct (IH (jobs_apply_update k' {[ "order" := VNum o ]} t)) as [IH1 IH2].
  - intros k j. destruct (decide (k = k')) as [->|Hne].
    + rewrite jobs_update_lookup_eq. destruct (t !! k'); [|done].
      intros [= <-]. by rewrite job_order_insert.
    + rewrite jobs_update_lookup_ne by done. apply Hnum.
  - split; [done|]. intros k Hk. apply IH2 in Hk.
    destruct (decide (k = k')) as [->|Hne].
    + rewrite jobs_update_lookup_eq in Hk. by destruct (t !! k').
    + by rewrite jobs_update_lookup_ne in Hk.
Qed.

(** The second handler when nothing fails: it answers success and leaves
    the table with all updates applied. *)
Lemma reorder_job_2_run env id fromOrder toOrder (t : gmap string obj) job :
  reorder_fault env = false → jobs_fault env JobsToArray = None →
  jobs_fault env JobsTransaction = None → jobs_fault env JobsUpdate = None →
  t !! id = Some job → is_Some (job_order job) →
  reorder_job_2 env id fromOrder toOrder t
  = (inr (Reply body_success 200),
     foldl (λ t (u : string * Z), jobs_apply_update u.1 {[ "order" := VNum u.2 ]} t) t
       (shift_updates fromOrder toOrder
          (merge_sort order_le
             (filter (λ kj : string * obj, is_Some (job_order kj.2)) (map_to_list t)))
        ++ [(id, toOrder)])).
Proof.
  intros Hrf Hta Htx Hup Hjob Hnum.
  unfold reorder_job_2, jobs_simulateNetwork, db_jobs_orderBy_order, db_jobs_transaction.
  unfold_J. cbn. rewrite Hrf, Hta. cbn.
  destruct (find _ _) as [found|] eqn:Hfind.
  - rewrite Htx, apply_updates_run by done. done.
  - exfalso. assert (bool_decide ((id, job).1 = id) = false) as Hno.
    { apply (find_none _ _ Hfind (id, job)).
      apply list_elem_of_In, ordered_jobs_elem. by split. }
    cbn in Hno. by apply bool_decide_eq_false in Hno.
Qed.

(** Distinct orders, read off the list of the table's records. *)
Lemma distinct_orders_NoDup (t : gmap string obj) :
  NoDup (job_order <$> (map_to_list t).*2) → distinct_orders t.
Proof.
  intros Hnd k1 k2 j1 j2 H1 H2 Heq.
  apply elem_of_map_to_list, list_elem_of_lookup in H1 as [i1 H1].
  apply elem_of_map_to_list, list_elem_of_lookup in H2 as [i2 H2].
  assert (i1 = i2) as ->.
  { apply (NoDup_lookup _ i1 i2 (job_order j1) Hnd).
    - by rewrite !list_lookup_fmap, H1.
    - by rewrite !list_lookup_fmap, H2, Heq. }
  congruence.
Qed.

Lemma numeric_orders_Forall (t : gmap string obj) :
  map_Forall (λ _ j, is_Some (job_order j)) t → numeric_orders t.
Proof. done. Qed.

Lemma safe_orders_Forall (t : gmap string obj) :
  map_Forall (λ _ j, safe_integer (default 0%Z (job_order j))) t → safe_orders t.
Proof. intros Hall k j o Hj Ho. specialize (Hall k j Hj). cbn beta in Hall. by rewrite Ho in Hall. Qed.

(** The orders after a successful run of the second handler: the moved job
    is at [toOrder], every other order goes through a map [f] that avoids
    [toOrder] and is strictly increasing off [fromOrder]. *)
Lemma reorder_job_2_orders env id fromOrder toOrder (t : gmap string obj) :
  reorder_fault env = false → jobs_fault env JobsToArray = None →
  jobs_fault env JobsTransaction = None → jobs_fault env JobsUpdate = None →
  numeric_orders t → order_at t id = Some fromOrder →
  ∃ t' (f : Z → Z),
    reorder_job_2 env id fromOrder toOrder t = (inr (Reply body_success 200), t')
    ∧ numeric_orders t'
    ∧ (∀ k, is_Some (t' !! k) → is_Some (t !! k))
    ∧ (∀ k, order_at t' k = if decide (k = id) then Some toOrder
                            else f <$> order_at t k)
    ∧ (∀ o, o ≠ fromOrder → f o ≠ toOrder)
    ∧ (∀ o1 o2, o1 ≠ fromOrder → o2 ≠ fromOrder → (o1 < o2)%Z → (f o1 < f o2)%Z).
Proof.
  intros Hrf Hta Htx Hup Hnum Hid.
  assert (∃ job, t !! id = Some job ∧ job_order job = Some fromOrder) as (job & Hjob & Ho).
  { unfold order_at in Hid. destruct (t !! id) as [job|]; [|done]. by exists job. }
  rewrite (reorder_job_2_run env id fromOrder toOrder t job) by (by rewrite ?Ho).
  unfold shift_updates. destruct (Z.ltb_spec fromOrder toOrder) as [Hlt|Hge].
  - eexists _, (λ o, if (fromOrder <? o)%Z && (o <=? toOrder)%Z then (o - 1)%Z else o).
    split; [done|]. split; [by apply updates_preserve|].
    split; [by apply updates_preserve|]. split.
    + apply (shift_loop_effect (λ o, (fromOrder <? o)%Z && (o <=? toOrder)%Z)
               (λ o, (o - 1)%Z) t id fromOrder toOrder); [done|done|].
      cbn. by rewrite Z.ltb_irrefl.
    + split.
      * intros o Hne. destruct (Z.ltb_spec fromOrder o), (Z.leb_spec o toOrder); cbn; lia.
      * intros o1 o2 H1 H2 Hlt12.
        destruct (Z.ltb_spec fromOrder o1), (Z.leb_spec o1 toOrder),
          (Z.ltb_spec fromOrder o2), (Z.leb_spec o2 toOrder); cbn; lia.
  - eexists _, (λ o, if (toOrder <=? o)%Z && (o <? fromOrder)%Z then (o + 1)%Z else o).
    split; [done|]. split; [by apply updates_preserve|].
    split; [by apply updates_preserve|]. split.
    + apply (shift_loop_effect (λ o, (toOrder <=? o)%Z && (o <? fromOrder)%Z)
               (λ o, (o + 1)%Z) t id fromOrder toOrder); [done|done|].
      cbn. by rewrite Z.ltb_irrefl, andb_false_r.
    + split.
      * intros o Hne. destruct (Z.leb_spec toOrder o), (Z.ltb_spec o fromOrder); cbn; lia.
      * intros o1 o2 H1 H2 Hlt12.
        destruct (Z.leb_spec toOrder o1), (Z.ltb_spec o1 fromOrder),
          (Z.leb_spec toOrder o2), (Z.ltb_spec o2 fromOrder); cbn; lia.
Qed.

(** X13: a successful reorder through the second handler puts the moved job
    at [toOrder] and keeps the orders of the table distinct numbers, when
    they were so before and [fromOrder] is the order the moved job has.
    The orders of the table and [toOrder] are safe integers. *)
Theorem reorder_2_keeps_orders_distinct env id fromOrder toOrder (t : gmap string obj) :
  safe_orders t → safe_integer toOrder →
  reorder_fault env = false → jobs_fault env JobsToArray = None →
  jobs_fault env JobsTransaction = None → jobs_fault env JobsUpdate = None →
  numeric_orders t → distinct_orders t → order_at t id = Some fromOrder →
  ∃ t', reorder_job_2 env id fromOrder toOrder t = (inr (Reply body_success 200), t')
        ∧ order_at t' id = Some toOrder
        ∧ numeric_orders t' ∧ distinct_orders t'.
Proof.
  intros _ _ Hrf Hta Htx Hup Hnum Hdist Hid.
  destruct (reorder_job_2_orders env id fromOrder toOrder t)
    as (t' & f & Hrun & Hnum' & Hdom & Hord & Hto & Hmono); try done.
  exists t'. split; [done|]. split; [by rewrite Hord, decide_True|]. split; [done|].
  assert (∀ k j', t' !! k = Some j' → k ≠ id →
            ∃ j o, t !! k = Some j ∧ job_order j = Some o ∧ o ≠ fromOrder
                   ∧ job_order j' = Some (f o)) as Hother.
  { intros k j' Hk Hne. destruct (Hdom k) as [j Hj]; [by rewrite Hk|].
    destruct (Hnum _ _ Hj) as [o Ho]. exists j, o. split; [done|]. split; [done|].
    split.
    - intros ->. apply Hne. unfold order_at in Hid.
      destruct (t !! id) as [job|] eqn:Hjob; [|done]. cbn in Hid.
      apply (Hdist k id j job); congruence.
    - pose proof (Hord k) as Hk'. unfold order_at in Hk'.
      rewrite Hk, Hj, decide_False in Hk' by done. cbn in Hk'. by rewrite Ho in Hk'. }
  assert (∀ j', t' !! id = Some j' → job_order j' = Some toOrder) as Hmoved.
  { intros j' Hj'. pose proof (Hord id) as Hk'. unfold order_at in Hk'.
    by rewrite Hj', decide_True in Hk'. }
  intros k1 k2 j1 j2 H1 H2 Heq.
  destruct (decide (k1 = id)) as [->|Hne1], (decide (k2 = id)) as [->|Hne2]; [done|..].
  - destruct (Hother _ _ H2 Hne2) as (j & o & _ & _ & Hno & Ho').
    rewrite (Hmoved _ H1), Ho' in Heq. injection Heq as Heq. by destruct (Hto o).
  - destruct (Hother _ _ H1 Hne1) as (j & o & _ & _ & Hno & Ho').
    rewrite (Hmoved _ H2), Ho' in Heq. injection Heq as Heq. by destruct (Hto o).
  - destruct (Hother _ _ H1 Hne1) as (ja & oa & Hja & Hoa & Hna & Hoa').
    destruct (Hother _ _ H2 Hne2) as (jb & ob & Hjb & Hob & Hnb & Hob').
    rewrite Hoa', Hob' in Heq. injection Heq as Heq.
    apply (Hdist k1 k2 ja jb); [done|done|]. rewrite Hoa, Hob. f_equal.
    destruct (Z.lt_trichotomy oa ob) as [Hlt|[Heq'|Hgt]]; [|done|].
    + pose proof (Hmono oa ob Hna Hnb Hlt). lia.
    + pose proof (Hmono ob oa Hnb Hna Hgt). lia.
Qed.

Lemma reorder_2_keeps_orders_distinct_witness :
  ∃ t', reorder_job_2 jobs_env_ok "job_1001" 1 3 jobs_table
        = (inr (Reply body_success 200), t')
        ∧ order_at t' "job_1001" = Some 3%Z
        ∧ numeric_orders t' ∧ distinct_orders t'.
Proof.
  apply reorder_2_keeps_orders_distinct; try reflexivity.
  - apply safe_orders_Forall. by_evaluation.
  - by_evaluation.
  - apply numeric_orders_Forall. by_evaluation.
  - apply distinct_orders_NoDup. by_evaluation.
Defined.

(** X14: through the second handler the jobs that are not moved keep their
    relative order, the orders of the table and [toOrder] being safe
    integers. *)
Theorem reorder_2_keeps_relative_order env id fromOrder toOrder (t : gmap string obj)
    k1 k2 o1 o2 :
  safe_orders t → safe_integer toOrder →
  reorder_fault env = false → jobs_fault env JobsToArray = None →
  jobs_fault env JobsTransaction = None → jobs_fault env JobsUpdate = None →
  numeric_orders t → distinct_orders t → order_at t id = Some fromOrder →
  k1 ≠ id → k2 ≠ id →
  order_at t k1 = Some o1 → order_at t k2 = Some o2 → (o1 < o2)%Z →
  ∃ t' o1' o2',
    reorder_job_2 env id fromOrder toOrder t = (inr (Reply body_success 200), t')
    ∧ order_at t' k1 = Some o1' ∧ order_at t' k2 = Some o2' ∧ (o1' < o2')%Z.
Proof.
  intros _ _ Hrf Hta Htx Hup Hnum Hdist Hid Hne1 Hne2 H1 H2 Hlt.
  destruct (reorder_job_2_orders env id fromOrder toOrder t)
    as (t' & f & Hrun & _ & _ & Hord & _ & Hmono); try done.
  assert (∀ k o, k ≠ id → order_at t k = Some o → o ≠ fromOrder) as Hoff.
  { intros k o Hne Hk ->. apply Hne. unfold order_at in Hid, Hk.
    destruct (t !! id) as [job|] eqn:Hjob; [|done].
    destruct (t !! k) as [j|] eqn:Hj; [|done]. cbn in *.
    apply (Hdist k id j job); congruence. }
  exists t', (f o1), (f o2). split; [done|].
  rewrite !Hord, !decide_False, H1, H2 by done. cbn.
  split; [done|]. split; [done|]. apply Hmono; eauto.
Qed.

Lemma reorder_2_keeps_relative_order_witness :
  ∃ t' o1' o2',
    reorder_job_2 jobs_env_ok "job_1001" 1 3 jobs_table
    = (inr (Reply body_success 200), t')
    ∧ order_at t' "job_1002" = Some o1' ∧ order_at t' "job_1004" = Some o2'
    ∧ (o1' < o2')%Z.
Proof.
  apply (reorder_2_keeps_relative_order jobs_env_ok "job_1001" 1 3 jobs_table
           "job_1002" "job_1004" 2 4); try reflexivity; try discriminate.
  - apply safe_orders_Forall. by_evaluation.
  - by_evaluation.
  - apply numeric_orders_Forall. by_evaluation.
  - apply distinct_orders_NoDup. by_evaluation.
Defined.

(** X15: the second handler writes all of a reorder or nothing: whenever it
    does not answer success, whatever failed, the table is as it was. *)
Theorem reorder_2_all_or_nothing env id fromOrder toOrder (t : gmap string obj) r t' :
  reorder_job_2 env id fromOrder toOrder t = (r, t') →
  r ≠ inr (Reply body_success 200) →
  t' = t.
Proof.
  unfold reorder_job_2, jobs_simulateNetwork, db_jobs_orderBy_order, db_jobs_transaction.
  unfold_J. cbn.
  destruct (reorder_fault env); [by intros [= <- <-]|].
  destruct (jobs_fault env JobsToArray); cbn; [by intros [= <- <-]|].
  destruct (find _ _); [|by intros [= <- <-]].
  destruct (jobs_fault env JobsTransaction); [by intros [= <- <-]|].
  destruct (apply_updates _ _ _) as [[e|[]] t1]; [by intros [= <- <-]|].
  by intros [= <- <-].
Qed.

Lemma reorder_2_all_or_nothing_witness :
  (reorder_job_2 jobs_env_simulated_error "job_1001" 1 3 jobs_table).2 = jobs_table.
Proof.
  apply (reorder_2_all_or_nothing jobs_env_simulated_error "job_1001" 1 3 jobs_table
           (reorder_job_2 jobs_env_simulated_error "job_1001" 1 3 jobs_table).1).
  - apply surjective_pairing.
  - vm_compute. discriminate.
Defined.

(** The first handler when nothing fails. *)
Lemma reorder_job_run env id fromOrder toOrder (t : gmap string obj) job :
  network_fault env = false → reorder_fault env = false →
  jobs_fault env JobsGet = None → jobs_fault env JobsUpdate = None →
  jobs_fault env JobsModify = None →
  t !! id = Some job →
  reorder_job env id fromOrder toOrder t
  = (inr (Reply body_success 200),
     (if (fromOrder <? toOrder)%Z
      then fmap (λ j, if order_between (fromOrder + 1) toOrder j
                      then shift_order (-1) j else j)
      else fmap (λ j, if order_between toOrder (fromOrder - 1) j
                      then shift_order 1 j else j))
       (jobs_apply_update id {[ "order" := VNum toOrder ]} t)).
Proof.
  intros Hnf Hrf Hget Hup Hmod Hjob.
  unfold reorder_job, jobs_simulateNetwork, db_jobs_get, db_jobs_update,
    db_jobs_modify_between, jobs_handleError.
  unfold_J. cbn. rewrite Hnf, Hrf. cbn. rewrite Hget. cbn. rewrite Hjob, Hup. cbn.
  destruct (fromOrder <? toOrder)%Z; by rewrite Hmod.
Qed.

Lemma order_at_modify (t : gmap string obj) lower upper d k :
  order_at ((λ j, if order_between lower upper j then shift_order d j else j) <$> t) k
  = (λ o, if (lower <=? o)%Z && (o <=? upper)%Z then (o + d)%Z else o) <$> order_at t k.
Proof.
  unfold order_at. rewrite lookup_fmap. destruct (t !! k) as [j|]; [|done]. cbn.
  unfold order_between, shift_order. destruct (job_order j) as [o|] eqn:Ho; [|by rewrite Ho].
  cbn. destruct ((lower <=? o)%Z && (o <=? upper)%Z); [|by rewrite Ho].
  by rewrite job_order_insert.
Qed.

Lemma order_at_update (t : gmap string obj) id o k :
  order_at (jobs_apply_update id {[ "order" := VNum o ]} t) k
  = if decide (k = id) then (λ _, o) <$> t !! id else order_at t k.
Proof.
  unfold order_at. destruct (decide (k = id)) as [->|Hne].
  - rewrite jobs_update_lookup_eq. destruct (t !! id); [|done]. cbn.
    by rewrite job_order_insert.
  - by rewrite jobs_update_lookup_ne.
Qed.

(** X16: the first handler stores [toOrder] for the moved job and then
    shifts every job of the range, the moved job included: for safe integers
    [fromOrder] and [toOrder], after a successful request the moved job is
    at [toOrder - 1] when it moved down, at [toOrder + 1] when it moved up,
    and at [toOrder] only when [fromOrder = toOrder]. *)
Theorem reorder_moved_job_misses_target env id fromOrder toOrder (t : gmap string obj) job :
  safe_integer fromOrder → safe_integer toOrder →
  network_fault env = false → reorder_fault env = false →
  jobs_fault env JobsGet = None → jobs_fault env JobsUpdate = None →
  jobs_fault env JobsModify = None →
  t !! id = Some job →
  ∃ t', reorder_job env id fromOrder toOrder t = (inr (Reply body_success 200), t')
        ∧ order_at t' id
          = Some (if (fromOrder <? toOrder)%Z then toOrder - 1
                  else if (toOrder <? fromOrder)%Z then toOrder + 1
                  else toOrder)%Z.
Proof.
  intros _ _ Hnf Hrf Hget Hup Hmod Hjob.
  rewrite (reorder_job_run env id fromOrder toOrder t job) by done.
  eexists. split; [done|].
  destruct (Z.ltb_spec fromOrder toOrder) as [Hlt|Hge].
  - rewrite order_at_modify, order_at_update, decide_True, Hjob by done. cbn.
    destruct (Z.leb_spec (fromOrder + 1) toOrder), (Z.leb_spec toOrder toOrder);
      cbn; f_equal; lia.
  - rewrite order_at_modify, order_at_update, decide_True, Hjob by done. cbn.
    destruct (Z.ltb_spec toOrder fromOrder),
      (Z.leb_spec toOrder toOrder), (Z.leb_spec toOrder (fromOrder - 1));
      cbn; f_equal; lia.
Qed.

Lemma reorder_moved_job_misses_target_witness :
  ∃ t', reorder_job jobs_env_ok "job_1001" 1 3 jobs_table
        = (inr (Reply body_success 200), t')
        ∧ order_at t' "job_1001" = Some 2%Z.
Proof.
  apply (reorder_moved_job_misses_target jobs_env_ok "job_1001" 1 3 jobs_table
           (job_record "job_1001" "Senior Frontend Developer" 1));
    try reflexivity; by_evaluation.
Defined.

(** X17: moving a job down to the order of another job through the first
    handler leaves the two jobs at the same order, [toOrder - 1]: the
    orders of the table are no longer distinct.  [fromOrder] and [toOrder]
    are safe integers. *)
Theorem reorder_down_collides env id k fromOrder toOrder (t : gmap string obj) job :
  safe_integer fromOrder → safe_integer toOrder →
  network_fault env = false → reorder_fault env = false →
  jobs_fault env JobsGet = None → jobs_fault env JobsUpdate = None →
  jobs_fault env JobsModify = None →
  t !! id = Some job → k ≠ id → order_at t k = Some toOrder →
  (fromOrder < toOrder)%Z →
  ∃ t', reorder_job env id fromOrder toOrder t = (inr (Reply body_success 200), t')
        ∧ order_at t' id = Some (toOrder - 1)%Z
        ∧ order_at t' k = Some (toOrder - 1)%Z
        ∧ ¬ distinct_orders t'.
Proof.
  intros _ _ Hnf Hrf Hget Hup Hmod Hjob Hne Hk Hlt.
  rewrite (reorder_job_run env id fromOrder toOrder t job) by done.
  eexists. split; [done|].
  destruct (Z.ltb_spec fromOrder toOrder) as [_|Hge]; [|lia].
  assert (∀ k', order_at t k' = Some toOrder ∨ k' = id →
            order_at ((λ j, if order_between (fromOrder + 1) toOrder j
                            then shift_order (-1) j else j)
                        <$> jobs_apply_update id {[ "order" := VNum toOrder ]} t) k'
            = Some (toOrder - 1)%Z) as Hboth.
  { intros k' Hk'. rewrite order_at_modify, order_at_update.
    assert ((if decide (k' = id) then (λ _, toOrder) <$> t !! id else order_at t k')
            = Some toOrder) as ->.
    { destruct (decide (k' = id)) as [->|Hne']; [by rewrite Hjob|]. by destruct Hk'. }
    cbn. destruct (Z.leb_spec (fromOrder + 1) toOrder), (Z.leb_spec toOrder toOrder);
      cbn; f_equal; lia. }
  split; [by apply Hboth; right|]. split; [by apply Hboth; left|].
  pose proof (Hboth id (or_intror eq_refl)) as H1.
  pose proof (Hboth k (or_introl Hk)) as H2.
  revert H1 H2. generalize (fmap (M:=gmap string)
      (λ j, if order_between (fromOrder + 1) toOrder j then shift_order (-1) j else j)
      (jobs_apply_update id {[ "order" := VNum toOrder ]} t)).
  intros t' H1 H2 Hdist. apply Hne. unfold order_at in H1, H2.
  destruct (t' !! id) as [j1|] eqn:Hj1; [|done].
  destruct (t' !! k) as [j2|] eqn:Hj2; [|done]. cbn in H1, H2.
  apply (Hdist k id j2 j1 Hj2 Hj1). congruence.
Qed.

Lemma reorder_down_collides_witness :
  ∃ t', reorder_job jobs_env_ok "job_1001" 1 3 jobs_table
        = (inr (Reply body_success 200), t')
        ∧ order_at t' "job_1001" = Some 2%Z
        ∧ order_at t' "job_1003" = Some 2%Z
        ∧ ¬ distinct_orders t'.
Proof.
  apply (reorder_down_collides jobs_env_ok "job_1001" "job_1003" 1 3 jobs_table
           (job_record "job_1001" "Senior Frontend Developer" 1));
    try reflexivity; try discriminate; by_evaluation.
Defined.

(** X18: the first handler runs its two writes outside a transaction.  When
    the shift of the range fails, the request is answered 500 and the moved
    job keeps the [toOrder] that was stored for it, every other job being
    as it was. *)
Theorem reorder_failed_shift_keeps_first_write env id fromOrder toOrder
    (t : gmap string obj) job e :
  network_fault env = false → reorder_fault env = false →
  jobs_fault env JobsGet = None → jobs_fault env JobsUpdate = None →
  jobs_fault env JobsModify = Some e →
  t !! id = Some job →
  ∃ msg t', reorder_job env id fromOrder toOrder t = (inr (Reply (body_error msg) 500), t')
        ∧ order_at t' id = Some toOrder
        ∧ ∀ k, k ≠ id → t' !! k = t !! k.
Proof.
  intros Hnf Hrf Hget Hup Hmod Hjob.
  unfold reorder_job, jobs_simulateNetwork, db_jobs_get, db_jobs_update,
    db_jobs_modify_between, jobs_handleError.
  unfold_J. cbn. rewrite Hnf, Hrf. cbn. rewrite Hget. cbn. rewrite Hjob, Hup. cbn.
  destruct (fromOrder <? toOrder)%Z; rewrite Hmod; cbn;
    (do 2 eexists; split; [done|]; split;
     [by rewrite order_at_update, decide_True, Hjob
     |by intros k Hk; apply jobs_update_lookup_ne]).
Qed.

Lemma reorder_failed_shift_keeps_first_write_witness :
  ∃ msg t', reorder_job jobs_env_modify_fails "job_1001" 1 3 jobs_table
            = (inr (Reply (body_error msg) 500), t')
            ∧ order_at t' "job_1001" = Some 3%Z
            ∧ ∀ k, k ≠ "job_1001" → t' !! k = jobs_table !! k.
Proof.
  apply (reorder_failed_shift_keeps_first_write jobs_env_modify_fails "job_1001" 1 3
           jobs_table (job_record "job_1001" "Senior Frontend Developer" 1)
           (Error "AbortError" "Transaction aborted")); reflexivity.
Defined.

Lemma at_stage_inj s s' c : at_stage s c → at_stage s' c → s = s'.
Proof. unfold at_stage, is_str. congruence. Qed.

Lemma currentStageIndex_found candidate i stage :
  CandidateDetail_STAGES !! i = Some stage → at_stage stage.1.1 candidate →
  currentStageIndex candidate = Z.of_nat i.
Proof.
  intros Hi Hat. unfold currentStageIndex.
  destruct (list_find _ _) as [[i' stage']|] eqn:Hfind.
  - apply list_find_Some in Hfind as (Hi' & Hat' & _). f_equal.
    apply (NoDup_lookup allStages i' i stage.1.1).
    + apply NoDup_allStages.
    + change allStages with (CandidateDetail_STAGES.*1.*1).
      rewrite !list_lookup_fmap, Hi'. cbn. f_equal. by apply (at_stage_inj _ _ candidate).
    + change allStages with (CandidateDetail_STAGES.*1.*1).
      by rewrite !list_lookup_fmap, Hi.
  - apply list_find_None in Hfind. rewrite Forall_forall in Hfind.
    destruct (Hfind stage); [|done]. by apply list_elem_of_lookup_2 in Hi.
Qed.

(** X19: for a candidate whose stage is the [i]-th of the registry, the
    progress bar of the detail page names that stage as the current one,
    marks exactly the steps before it as completed and exactly step [i] as
    current; the current step is the red one exactly for [rejected].  So a
    rejected candidate is shown with all other stages, [offer] and [hired]
    included, completed. *)
Theorem progress_marks_follow_stage candidate i stage index :
  CandidateDetail_STAGES !! i = Some stage → at_stage stage.1.1 candidate →
  currentStage candidate = Some stage
  ∧ isCompleted candidate index = bool_decide (index < i)%nat
  ∧ isCurrent candidate index = bool_decide (index = i)
  ∧ isRejected candidate index = bool_decide (index = i ∧ stage.1.1 = "rejected").
Proof.
  intros Hi Hat. pose proof (currentStageIndex_found _ _ _ Hi Hat) as Hidx.
  unfold currentStage, isRejected, isCompleted, isCurrent. rewrite Hidx.
  assert ((0 <=? Z.of_nat i)%Z = true) as -> by (apply Z.leb_le; lia).
  rewrite Nat2Z.id, Hi. split; [done|].
  assert ((Z.of_nat index =? Z.of_nat i)%Z = bool_decide (index = i)) as ->.
  { destruct (Z.eqb_spec (Z.of_nat index) (Z.of_nat i)) as [Heq|Hne].
    - symmetry. apply bool_decide_eq_true. lia.
    - symmetry. apply bool_decide_eq_false. lia. }
  split; [|split; [done|]].
  - destruct (Z.ltb_spec (Z.of_nat index) (Z.of_nat i)).
    + symmetry. apply bool_decide_eq_true. lia.
    + symmetry. apply bool_decide_eq_false. lia.
  - destruct (decide (stage.1.1 = "rejected")) as [Hrej|Hrej].
    + rewrite Hrej in Hat. rewrite (bool_decide_eq_true_2 _ Hat). cbn.
      apply bool_decide_ext. tauto.
    + rewrite bool_decide_eq_false_2.
      * cbn. symmetry. apply bool_decide_eq_false. tauto.
      * intros Hat'. apply Hrej. by apply (at_stage_inj _ _ candidate).
Qed.

Lemma progress_marks_follow_stage_witness :
  currentStage (candidate_record "c3" "Rex" "rejected")
  = Some ("rejected", "Rejected", "bg-red-100 text-red-800")
  ∧ isCompleted (candidate_record "c3" "Rex" "rejected") 4 = true
  ∧ isCurrent (candidate_record "c3" "Rex" "rejected") 4 = false
  ∧ isRejected (candidate_record "c3" "Rex" "rejected") 4 = false.
Proof.
  apply (progress_marks_follow_stage (candidate_record "c3" "Rex" "rejected") 5
           ("rejected", "Rejected", "bg-red-100 text-red-800") 4); reflexivity.
Defined.

(** X20: for a candidate whose stage is not in the registry the progress
    bar marks no step as completed or current, and yet names the first
    stage, Applied, as the current stage. *)
Theorem progress_of_unknown_stage candidate index :
  ¬ staged candidate →
  currentStageIndex candidate = (-1)%Z
  ∧ currentStage candidate = Some ("applied", "Applied", "bg-blue-100 text-blue-800")
  ∧ isCompleted candidate index = false
  ∧ isCurrent candidate index = false
  ∧ isRejected candidate index = false.
Proof.
  intros Hun.
  assert (currentStageIndex candidate = (-1)%Z) as Hidx.
  { unfold currentStageIndex.
    destruct (list_find _ _) as [[i stage]|] eqn:Hfind; [|done].
    apply list_find_Some in Hfind as (Hi & Hat & _). destruct Hun.
    exists stage.1.1. split; [|done].
    change allStages with (CandidateDetail_STAGES.*1.*1).
    apply list_elem_of_lookup_2 with i. by rewrite !list_lookup_fmap, Hi. }
  unfold currentStage, isRejected, isCompleted, isCurrent. rewrite Hidx. cbn.
  split; [done|]. split; [done|].
  assert ((Z.of_nat index <? -1)%Z = false) as -> by (apply Z.ltb_ge; lia).
  assert ((Z.of_nat index =? -1)%Z = false) as -> by (apply Z.eqb_neq; lia).
  by rewrite andb_false_r.
Qed.

Lemma progress_of_unknown_stage_witness :
  currentStageIndex eve = (-1)%Z
  ∧ currentStage eve = Some ("applied", "Applied", "bg-blue-100 text-blue-800")
  ∧ isCompleted eve 0 = false ∧ isCurrent eve 0 = false ∧ isRejected eve 0 = false.
Proof.
  apply (progress_of_unknown_stage eve 0). by_evaluation.
Defined.

(** X21: [moveCandidate] of the candidates hook has none of the guards of
    the board and the list view: for every non-empty id and stage, whatever
    the candidate's current stage and whether or not the stage is in the
    registry, it issues one update of [stage] and [lastUpdated]; it writes
    no timeline event and never touches the board's cache. *)
Theorem moveCandidate_always_writes env candidateId newStage w :
  candidateId ≠ "" → newStage ≠ "" →
  ∃ r w', moveCandidate env candidateId newStage w = (Some r, w')
    ∧ calls w' = calls w ++ [candidates_update candidateId
                               (list_to_map [ ("stage", VStr newStage);
                                              ("lastUpdated", VStr (now_iso env 0)) ])]
    ∧ timeline w' = timeline w ∧ cache w' = cache w
    ∧ (fault env CandidatesUpdate = None →
       r = inr ()
       ∧ persisted_stage w' candidateId
         = (λ _, VStr newStage) <$> candidates w !! candidateId).
Proof.
  intros Hid Hst. unfold moveCandidate.
  apply String.eqb_neq in Hid, Hst. rewrite Hid, Hst. cbn -[list_to_map].
  unfold moveCandidate_mutationFn, db_candidates_update, store_op. unfold_M.
  cbn -[list_to_map].
  destruct (fault env CandidatesUpdate) as [e|]; cbn -[list_to_map].
  - do 2 eexists. split; [done|]. cbn -[list_to_map]. by repeat split.
  - do 2 eexists. split; [done|]. cbn -[list_to_map].
    unfold apply_update. cbn -[list_to_map].
    destruct (candidates w !! candidateId) as [c|] eqn:Hc; cbn -[list_to_map].
    + repeat split; try done. unfold persisted_stage. cbn -[list_to_map].
      rewrite lookup_insert_eq. cbn -[list_to_map]. unfold spread.
      rewrite lookup_union_l'; [done|]. by eexists.
    + repeat split; try done. unfold persisted_stage. cbn. by rewrite Hc.
Qed.

Lemma moveCandidate_always_writes_witness :
  ∃ r w', moveCandidate env_ok "c1" "screen" w_ann = (Some r, w')
    ∧ calls w' = calls w_ann ++ [candidates_update "c1"
                                   (list_to_map [ ("stage", VStr "screen");
                                                  ("lastUpdated", VStr (now_iso env_ok 0)) ])]
    ∧ timeline w' = timeline w_ann ∧ cache w' = cache w_ann
    ∧ (fault env_ok CandidatesUpdate = None →
       r = inr ()
       ∧ persisted_stage w' "c1" = (λ _, VStr "screen") <$> candidates w_ann !! "c1").
Proof.
  apply (moveCandidate_always_writes env_ok "c1" "screen" w_ann); discriminate.
Defined.
